(** * Kitsul_lab_1: URL routing, query operations and admin image deletion

    A shallow embedding of [app_blog/urls.py] and [app_blog/admin.py],
    checked against [app_blog/tests_urls.py].

    [urls.py] is a list of four [path(route, view, name=...)] entries.  The
    meaning of such an entry is fixed by the web framework: the route text
    is cut into literal pieces and [<converter:name>] parameters, every
    parameter stands for the regular expression of its converter, and a
    request path is matched against the whole route.  That meaning is
    written out below ([route_to_parts], [match_parts], [resolve],
    [reverse]); the table [urlpatterns] itself is copied from the file. *)

From Stdlib Require Import ZArith NArith Ascii String List DecimalString DecimalPos.
From stdpp Require Import gmap strings list.

Local Open Scope Z_scope.

(** ** Characters and text *)

Definition chars (s : string) : list ascii := String.list_ascii_of_string s.
Definition text (l : list ascii) : string := String.string_of_list_ascii l.

Definition code (c : ascii) : N := N_of_ascii c.

Definition in_range (lo hi : N) (c : ascii) : bool :=
  ((lo <=? code c) && (code c <=? hi))%N.

Definition is_digit (c : ascii) : bool := in_range 48 57 c.
Definition is_lower (c : ascii) : bool := in_range 97 122 c.
Definition is_upper (c : ascii) : bool := in_range 65 90 c.

Definition slash : ascii := "/"%char.

(** ** Path converters

    The converters a route may name, with the character class each one
    repeats one or more times: [int] is [[0-9]+], [slug] is
    [[-a-zA-Z0-9_]+], [str] is [[^/]+] and [path] is [.+]. *)

Inductive converter := IntConverter | SlugConverter | StringConverter | PathConverter.

Definition int_class (c : ascii) : bool := is_digit c.

Definition slug_class (c : ascii) : bool :=
  is_lower c || is_upper c || is_digit c
  || bool_decide (c = "-"%char) || bool_decide (c = "_"%char).

Definition str_class (c : ascii) : bool := negb (bool_decide (c = slash)).

Definition path_class (c : ascii) : bool := negb (bool_decide (code c = 10%N)).

Definition conv_class (cv : converter) : ascii -> bool :=
  match cv with
  | IntConverter => int_class
  | SlugConverter => slug_class
  | StringConverter => str_class
  | PathConverter => path_class
  end.

Definition get_converter (name : string) : option converter :=
  if bool_decide (name = "int") then Some IntConverter
  else if bool_decide (name = "slug") then Some SlugConverter
  else if bool_decide (name = "str") then Some StringConverter
  else if bool_decide (name = "path") then Some PathConverter
  else None.

(** Values carried by keyword arguments: Python [int] and [str]. *)
Inductive value :=
  | VInt (z : Z)
  | VStr (s : string).

Global Instance value_eq_dec : EqDecision value.
Proof. solve_decision. Defined.

(** The interpreter converts between integers and decimal text only up
    to this many digits ([sys.int_max_str_digits], at its default); a
    longer conversion raises [ValueError], in either direction. *)
Definition int_max_str_digits : Z := 4300.

Definition within_cap (l : list ascii) : bool :=
  Z.of_nat (length l) <=? int_max_str_digits.

(** The number a run of decimal digits denotes. *)
Definition digit_val (c : ascii) : Z := Z.of_N (code c) - 48.

Definition int_of_digits (l : list ascii) : Z :=
  fold_left (fun acc c => 10 * acc + digit_val c) l 0.

(** [int(text)] on a run of decimal digits; [None] is the [ValueError]
    for a text of too many digits, leading zeros included. *)
Definition int (l : list ascii) : option Z :=
  if within_cap l then Some (int_of_digits l) else None.

(** The decimal digits of an integer, with a leading minus sign for a
    negative one. *)
Definition decimal (z : Z) : string := NilZero.string_of_int (Z.to_int z).

(** [str(z)]; [None] is the [ValueError] for an integer of too many
    digits, the sign not counted. *)
Definition str (z : Z) : option string :=
  if within_cap (chars (decimal (Z.abs z))) then Some (decimal z) else None.

(** A converter's [to_python]; [None] is [ValueError]. *)
Definition to_python (cv : converter) (l : list ascii) : option value :=
  match cv with
  | IntConverter =>
      match int l with
      | Some z => Some (VInt z)
      | None => None
      end
  | _ => Some (VStr (text l))
  end.

(** A converter's [to_url], which is [str(value)] for all four; [None]
    is [ValueError]. *)
Definition to_url (v : value) : option (list ascii) :=
  match v with
  | VInt z =>
      match str z with
      | Some t => Some (chars t)
      | None => None
      end
  | VStr s => Some (chars s)
  end.

(** ** Routes *)

Inductive part :=
  | Lit (s : list ascii)
  | Param (name : string) (cv : converter).

Definition is_ident_char (c : ascii) : bool :=
  is_lower c || is_upper c || is_digit c || bool_decide (c = "_"%char).

Definition is_identifier (l : list ascii) : bool :=
  match l with
  | [] => false
  | c :: _ => negb (is_digit c) && forallb is_ident_char l
  end.

(** Cut [conv:name] at the first colon; a parameter written without a
    converter uses [str]. *)
Fixpoint split_colon (l : list ascii) : option (list ascii * list ascii) :=
  match l with
  | [] => None
  | c :: r =>
      if bool_decide (c = ":"%char) then Some ([], r)
      else match split_colon r with
           | Some (a, b) => Some (c :: a, b)
           | None => None
           end
  end.

Definition make_param (body : list ascii) : option part :=
  let '(cname, pname) :=
    match split_colon body with
    | Some (a, b) => if bool_decide (a = []) then (chars "str", body) else (a, b)
    | None => (chars "str", body)
    end in
  if is_identifier pname then
    match get_converter (text cname) with
    | Some cv => Some (Param (text pname) cv)
    | None => None
    end
  else None.

Definition flush (lit : list ascii) (ps : list part) : list part :=
  match lit with
  | [] => ps
  | _ => Lit (rev lit) :: ps
  end.

(** One pass over the route text.  [lit] is the literal read so far and
    [open] the text read since an unclosed [<], both reversed.  A route
    whose parameter is ill-formed is rejected ([None]), as the framework
    refuses to configure it. *)
Fixpoint parse_route (lit : list ascii) (open : option (list ascii))
    (l : list ascii) : option (list part) :=
  match l with
  | [] =>
      match open with
      | None => Some (flush lit [])
      | Some _ => None
      end
  | c :: r =>
      match open with
      | None =>
          if bool_decide (c = "<"%char)
          then match parse_route [] (Some []) r with
               | Some ps => Some (flush lit ps)
               | None => None
               end
          else parse_route (c :: lit) None r
      | Some body =>
          if bool_decide (c = ">"%char)
          then match make_param (rev body), parse_route [] None r with
               | Some p, Some ps => Some (p :: ps)
               | _, _ => None
               end
          else parse_route lit (Some (c :: body)) r
      end
  end.

Definition route_to_parts (route : string) : option (list part) :=
  parse_route [] None (chars route).

(** ** Matching a path against a route *)

Fixpoint strip_prefix (s p : list ascii) : option (list ascii) :=
  match s with
  | [] => Some p
  | c :: s' =>
      match p with
      | c' :: p' => if bool_decide (c = c') then strip_prefix s' p' else None
      | [] => None
      end
  end.

Definition groups := list (string * list ascii).

(** [class+] followed by the rest of the pattern [k]: the longest run is
    tried first and shortened until the rest matches. *)
Fixpoint match_plus {R} (cls : ascii -> bool) (k : list ascii -> option R)
    (p : list ascii) : option (list ascii * R) :=
  match p with
  | [] => None
  | c :: p' =>
      if cls c then
        match match_plus cls k p' with
        | Some (v, r) => Some (c :: v, r)
        | None =>
            match k p' with
            | Some r => Some ([c], r)
            | None => None
            end
        end
      else None
  end.

(** The whole path has to be used up: the pattern of an endpoint is
    anchored at both ends. *)
Fixpoint match_parts (ps : list part) (p : list ascii) : option groups :=
  match ps with
  | [] => match p with [] => Some [] | _ => None end
  | Lit s :: rest =>
      match strip_prefix s p with
      | Some p' => match_parts rest p'
      | None => None
      end
  | Param n cv :: rest =>
      match match_plus (conv_class cv) (match_parts rest) p with
      | Some (v, g) => Some ((n, v) :: g)
      | None => None
      end
  end.

Fixpoint converter_of (ps : list part) (n : string) : option converter :=
  match ps with
  | [] => None
  | Param m cv :: rest => if bool_decide (m = n) then Some cv else converter_of rest n
  | Lit _ :: rest => converter_of rest n
  end.

Abbreviation kwargs := (gmap string value).

(** The matched texts through their converters.  A conversion that
    raises [ValueError] makes the whole pattern fail to match. *)
Fixpoint convert_groups (ps : list part) (g : groups) : option kwargs :=
  match g with
  | [] => Some ∅
  | (n, v) :: g' =>
      match converter_of ps n with
      | Some cv =>
          match to_python cv v, convert_groups ps g' with
          | Some x, Some kw => Some (<[n := x]> kw)
          | _, _ => None
          end
      | None => convert_groups ps g'
      end
  end.

(** ** The URL configuration of [app_blog/urls.py] *)

Inductive view := HomePageView | ArticleList | ArticleCategoryList | ArticleDetail.

Global Instance view_eq_dec : EqDecision view.
Proof. solve_decision. Defined.

Record url_pattern := path {
  route : string;
  callback : view;
  name : string
}.

Definition urlpatterns : list url_pattern :=
  [ path "" HomePageView "home";
    path "articles" ArticleList "articles-list";
    path "articles/category/<slug:slug>/" ArticleCategoryList "articles-category-list";
    path "articles/<int:year>/<int:month>/<int:day>/<slug:slug>/" ArticleDetail "news-detail" ].

Record resolver_match := ResolverMatch {
  func : view;
  url_name : string;
  match_kwargs : kwargs
}.

Definition match_pattern (u : url_pattern) (p : list ascii) : option resolver_match :=
  match route_to_parts (route u) with
  | Some ps =>
      match match_parts ps p with
      | Some g =>
          match convert_groups ps g with
          | Some kw => Some (ResolverMatch (callback u) (name u) kw)
          | None => None
          end
      | None => None
      end
  | None => None
  end.

Fixpoint first_match (us : list url_pattern) (p : list ascii) : option resolver_match :=
  match us with
  | [] => None
  | u :: us' =>
      match match_pattern u p with
      | Some m => Some m
      | None => first_match us' p
      end
  end.

(** [resolve(path)]: the root resolver takes the leading slash, then the
    patterns are tried in the order of the file.  [None] is the
    resolver's "not found" ([Resolver404], answered with status 404).
    The patterns are mounted at the root of the site, as the tests
    require: there [resolve('/')] is the home view and
    [reverse('articles-list')] is [/articles]. *)
Definition resolve_in (us : list url_pattern) (p : string) : option resolver_match :=
  match chars p with
  | c :: rest => if bool_decide (c = slash) then first_match us rest else None
  | [] => None
  end.

Definition resolve (p : string) : option resolver_match := resolve_in urlpatterns p.

(** ** Reverse construction *)

Fixpoint param_names (ps : list part) : list string :=
  match ps with
  | [] => []
  | Lit _ :: rest => param_names rest
  | Param n _ :: rest => n :: param_names rest
  end.

(** The route with every parameter replaced by the text of its value. *)
Fixpoint substitute (ps : list part) (kw : kwargs) : option (list ascii) :=
  match ps with
  | [] => Some []
  | Lit s :: rest =>
      match substitute rest kw with
      | Some r => Some (s ++ r)
      | None => None
      end
  | Param n _ :: rest =>
      match kw !! n with
      | Some v =>
          match to_url v, substitute rest kw with
          | Some t, Some r => Some (t ++ r)
          | _, _ => None
          end
      | None => None
      end
  end.

(** [urllib.parse.quote(url, safe="!$&'()*+,;=/~:@")]: letters, digits
    and the listed marks are kept, any other byte becomes [%XX]. *)
Definition always_safe (c : ascii) : bool :=
  is_lower c || is_upper c || is_digit c
  || bool_decide (c ∈ chars "_.-~").

Definition url_safe (c : ascii) : bool :=
  always_safe c || bool_decide (c ∈ chars "!$&'()*+,;=/~:@").

Definition hex_digit (n : N) : ascii :=
  nth (N.to_nat n) (chars "0123456789ABCDEF") "0"%char.

Definition quote_char (c : ascii) : list ascii :=
  if url_safe c then [c]
  else ["%"%char; hex_digit (code c / 16); hex_digit (code c mod 16)].

Definition quote (l : list ascii) : list ascii := concat (map quote_char l).

Definition escape_leading_slashes (l : list ascii) : list ascii :=
  match l with
  | c1 :: c2 :: r =>
      if bool_decide (c1 = slash) && bool_decide (c2 = slash)
      then chars "/%2F" ++ r else l
  | _ => l
  end.

(** One candidate of [reverse]: the keyword names must be exactly the
    route's parameters, every value must have a text ([to_url]), the
    filled-in text must match the route's own pattern, and the result is
    quoted behind the script prefix [/]. *)
Definition reverse_pattern (u : url_pattern) (kw : kwargs) : option string :=
  match route_to_parts (route u) with
  | Some ps =>
      if bool_decide (dom kw = list_to_set (param_names ps)) then
        match substitute ps kw with
        | Some cand =>
            match match_parts ps cand with
            | Some _ => Some (text (escape_leading_slashes (quote (slash :: cand))))
            | None => None
            end
        | None => None
        end
      else None
  | None => None
  end.

Fixpoint first_reverse (us : list url_pattern) (n : string) (kw : kwargs) : option string :=
  match us with
  | [] => None
  | u :: us' =>
      if bool_decide (name u = n) then
        match reverse_pattern u kw with
        | Some r => Some r
        | None => first_reverse us' n kw
        end
      else first_reverse us' n kw
  end.

(** [reverse(name, kwargs=kw)].  [None] means that no URL is built and the
    call raises: [NoReverseMatch], or the [ValueError] of an integer too
    long to be written.  Candidates are looked up last pattern first. *)
Definition reverse_in (us : list url_pattern) (n : string) (kw : kwargs) : option string :=
  first_reverse (rev us) n kw.

Definition reverse (n : string) (kw : kwargs) : option string :=
  reverse_in urlpatterns n kw.

(** ** Entity store *)

(** Modelled from the spec: [models.py] is not among the sources.  The
    three entities and their attributes are those of the spec's data model;
    [pub_date] is a date-time, of which the lookups below read the
    calendar day. *)
Record DateTime := {
  year : Z; month : Z; day : Z;
  hour : Z; minute : Z; second : Z
}.

Module Category.
Record t := mk { category : string; slug : string }.
End Category.

Module Article.
Record t := mk {
    title : string;
    description : string;
    slug : string;
    pub_date : DateTime;
    main_page : bool;
    category : option Z
  }.
End Article.

Module ArticleImage.
Record t := mk { title : string; image : string; article : Z }.
End ArticleImage.

Global Instance DateTime_eq_dec : EqDecision DateTime.
Proof. solve_decision. Defined.
Global Instance Category_eq_dec : EqDecision Category.t.
Proof. solve_decision. Defined.
Global Instance Article_eq_dec : EqDecision Article.t.
Proof. solve_decision. Defined.
Global Instance ArticleImage_eq_dec : EqDecision ArticleImage.t.
Proof. solve_decision. Defined.

(** One table per entity, keyed by primary key. *)
Record Store := {
  categories : gmap Z Category.t;
  articles : gmap Z Article.t;
  images : gmap Z ArticleImage.t
}.

(** ** Admin layer: [ArticleAdmin.delete_file] of [admin.py] *)

Inductive exception := Http404 | MultipleObjectsReturned | KeyError.

Inductive result (A : Type) :=
  | Ok (a : A)
  | Raise (e : exception).
Arguments Ok {A} a.
Arguments Raise {A} e.

(** Store-passing computations that may raise. *)
Definition action (A : Type) : Type := Store -> result A * Store.

Definition ret {A} (a : A) : action A := fun st => (Ok a, st).

Definition bind {A B} (m : action A) (f : A -> action B) : action B :=
  fun st =>
    match m st with
    | (Ok a, st') => f a st'
    | (Raise e, st') => (Raise e, st')
    end.

Notation "x <- m ;; k" := (bind m (fun x => k))
  (at level 100, m at next level, right associativity).

(** [get_object_or_404(ArticleImage, pk=pk)]: the primary key names at
    most one row. *)
Definition get_image_or_404 (pk : Z) : action (Z * ArticleImage.t) :=
  fun st =>
    match images st !! pk with
    | Some img => (Ok (pk, img), st)
    | None => (Raise Http404, st)
    end.

(** [obj.delete()]: the row of [obj]'s primary key leaves the table. *)
Definition delete_image (obj : Z * ArticleImage.t) : action unit :=
  fun st =>
    (Ok tt, {| categories := categories st;
               articles := articles st;
               images := delete obj.1 (images st) |}).

Definition delete_file (pk : Z) : action unit :=
  obj <- get_image_or_404 pk ;;
  delete_image obj.

(** ** Query layer and views *)

Abbreviation row := (Z * Article.t)%type.

Inductive context_value :=
  | Items (l : list row)
  | Item (a : row).

Record response := {
  status_code : Z;
  template_name : string;
  context : gmap string context_value
}.

(** Modelled from the spec: [views.py] is not among the sources.  "List
    all articles" returns every Article record. *)
Definition all_articles (st : Store) : list row := map_to_list (articles st).

(** Modelled from the spec: [views.py] is not among the sources.  The slug
    of the Category an article refers to, if it refers to one. *)
Definition category_slug (st : Store) (a : Article.t) : option string :=
  match Article.category a with
  | Some k =>
      match categories st !! k with
      | Some c => Some (Category.slug c)
      | None => None
      end
  | None => None
  end.

(** Modelled from the spec: [views.py] is not among the sources.  "List by
    category" filters the articles whose [category.slug] equals the slug
    of the path. *)
Definition filter_category_slug (st : Store) (s : string) : list row :=
  filter (fun x : row => category_slug st x.2 = Some s) (all_articles st).

Definition on_day (dt : DateTime) (y m d : Z) : Prop :=
  year dt = y /\ month dt = m /\ day dt = d.

(** Modelled from the spec: [views.py] is not among the sources.  "Fetch
    single article" looks for the Article whose slug matches and whose
    [pub_date] falls on the calendar day year/month/day. *)
Definition filter_day_slug (st : Store) (y m d : Z) (s : string) : list row :=
  filter (fun x : row => Article.slug x.2 = s /\ on_day (Article.pub_date x.2) y m d)
         (all_articles st).

(** Modelled from the spec: [views.py] is not among the sources.  The
    lookup answers "not found" when nothing matches; the spec assumes, and
    the store does not enforce, that at most one article matches, so more
    than one match is an error of its own. *)
Definition get_object_or_404 {A} (l : list A) : result A :=
  match l with
  | [] => Raise Http404
  | [x] => Ok x
  | _ => Raise MultipleObjectsReturned
  end.

(** Modelled from the spec: [views.py] is not among the sources.  The four
    operations with the templates, statuses and context names of the
    spec's interface table: a listing hands [items], an ordered sequence
    of articles, to the template, the detail page hands it [item]. *)
Definition items_response (l : list row) : response :=
  {| status_code := 200; template_name := "articles_list.html";
     context := {["items" := Items l]} |}.

Definition item_response (a : row) : response :=
  {| status_code := 200; template_name := "article_detail.html";
     context := {["item" := Item a]} |}.

Definition home_page_view : result response :=
  Ok {| status_code := 200; template_name := "index.html"; context := ∅ |}.

Definition article_list_view (st : Store) : result response :=
  Ok (items_response (all_articles st)).

Definition article_category_list_view (st : Store) (s : string) : result response :=
  Ok (items_response (filter_category_slug st s)).

Definition article_detail_view (st : Store) (y m d : Z) (s : string) : result response :=
  match get_object_or_404 (filter_day_slug st y m d s) with
  | Ok a => Ok (item_response a)
  | Raise e => Raise e
  end.

(** A view is called with the keyword arguments the resolver extracted. *)
Definition dispatch (st : Store) (m : resolver_match) : result response :=
  match func m with
  | HomePageView => home_page_view
  | ArticleList => article_list_view st
  | ArticleCategoryList =>
      match match_kwargs m !! "slug" with
      | Some (VStr s) => article_category_list_view st s
      | _ => Raise KeyError
      end
  | ArticleDetail =>
      match match_kwargs m !! "year", match_kwargs m !! "month",
            match_kwargs m !! "day", match_kwargs m !! "slug" with
      | Some (VInt y), Some (VInt mo), Some (VInt d), Some (VStr s) =>
          article_detail_view st y mo d s
      | _, _, _, _ => Raise KeyError
      end
  end.

(** [client.get(path)] of the tests: resolve, then call the view. *)
Definition client_get (st : Store) (p : string) : result response :=
  match resolve p with
  | Some m => dispatch st m
  | None => Raise Http404
  end.

(** Status line of an outcome. *)
Definition http_status (r : result response) : Z :=
  match r with
  | Ok resp => status_code resp
  | Raise Http404 => 404
  | Raise _ => 500
  end.

(** ** Specification vocabulary *)

(** [l] is matched by [class+]: not empty, every character in the class. *)
Definition is_run (cls : ascii -> bool) (l : list ascii) : bool :=
  match l with
  | [] => false
  | _ => forallb cls l
  end.

Definition is_int_text (s : string) : bool := is_run int_class (chars s).
Definition is_slug_text (s : string) : bool := is_run slug_class (chars s).

(** A text short enough for [int]. *)
Definition fits (s : string) : bool := within_cap (chars s).

(** The integers that [str] writes as a run of digits: not negative and
    of no more digits than the interpreter converts. *)
Definition representable (z : Z) : bool :=
  (0 <=? z) && (z <? 10 ^ int_max_str_digits).

(** One pattern of known pieces against a path: match, then convert. *)
Definition match_with (ps : list part) (cb : view) (nm : string)
    (p : list ascii) : option resolver_match :=
  match match_parts ps p with
  | Some g =>
      match convert_groups ps g with
      | Some kw => Some (ResolverMatch cb nm kw)
      | None => None
      end
  | None => None
  end.

(** What it means for a route to match a path, without a search order. *)
Inductive matches : list part -> list ascii -> groups -> Prop :=
  | matches_nil : matches [] [] []
  | matches_lit s rest p g :
      matches rest p g -> matches (Lit s :: rest) (s ++ p) g
  | matches_param n cv rest v p g :
      is_run (conv_class cv) v = true ->
      matches rest p g ->
      matches (Param n cv :: rest) (v ++ p) ((n, v) :: g).

(** Every parameter is followed by the end of the route or by a literal
    whose first character is outside the parameter's class, so that a
    path can be cut in one way only. *)
Fixpoint separated (ps : list part) : bool :=
  match ps with
  | [] => true
  | Lit _ :: rest => separated rest
  | Param _ cv :: rest =>
      match rest with
      | [] => true
      | Lit (c :: _) :: _ => negb (conv_class cv c)
      | _ => false
      end && separated rest
  end.

Definition slashes (l : list ascii) : nat :=
  length (filter (fun c => c = slash) l).

Definition category_path (s : string) : string :=
  "/articles/category/" +:+ s +:+ "/".

Definition news_path (y m d s : string) : string :=
  "/articles/" +:+ y +:+ "/" +:+ m +:+ "/" +:+ d +:+ "/" +:+ s +:+ "/".

Definition category_kwargs (s : string) : kwargs := {["slug" := VStr s]}.

Definition news_kwargs (y m d : Z) (s : string) : kwargs :=
  <["year" := VInt y]> (<["month" := VInt m]> (<["day" := VInt d]>
    {["slug" := VStr s]})).

Definition category_parts : list part :=
  [ Lit (chars "articles/category/"); Param "slug" SlugConverter; Lit [slash] ].

Definition news_parts : list part :=
  [ Lit (chars "articles/"); Param "year" IntConverter; Lit [slash];
    Param "month" IntConverter; Lit [slash]; Param "day" IntConverter;
    Lit [slash]; Param "slug" SlugConverter; Lit [slash] ].

(** The paths of the two parameterised routes, without the leading slash. *)
Definition category_chars (v : list ascii) : list ascii :=
  chars "articles/category/" ++ v ++ [slash].

Definition news_chars (y m d s : list ascii) : list ascii :=
  chars "articles/" ++ y ++ slash :: m ++ slash :: d ++ slash :: s ++ [slash].

(** What [resolve] answers, route by route. *)
Inductive resolves : string -> resolver_match -> Prop :=
  | resolves_home :
      resolves "/" (ResolverMatch HomePageView "home" ∅)
  | resolves_list :
      resolves "/articles" (ResolverMatch ArticleList "articles-list" ∅)
  | resolves_category s :
      is_slug_text s = true ->
      resolves (category_path s)
        (ResolverMatch ArticleCategoryList "articles-category-list" (category_kwargs s))
  | resolves_news y m d s :
      is_int_text y = true -> is_int_text m = true -> is_int_text d = true ->
      is_slug_text s = true ->
      fits y = true -> fits m = true -> fits d = true ->
      resolves (news_path y m d s)
        (ResolverMatch ArticleDetail "news-detail"
           (news_kwargs (int_of_digits (chars y)) (int_of_digits (chars m))
                        (int_of_digits (chars d)) s)).

(** The spec's invariant on Category: no two categories share a slug. *)
Definition unique_slugs (st : Store) : Prop :=
  forall k1 k2 c1 c2,
    categories st !! k1 = Some c1 -> categories st !! k2 = Some c2 ->
    Category.slug c1 = Category.slug c2 -> k1 = k2.

(** The articles whose category reference is the category of key [k]. *)
Definition articles_of (st : Store) (k : Z) : list row :=
  filter (fun x : row => Article.category x.2 = Some k) (all_articles st).

(** The number of articles whose category reference is [k]. *)
Definition count_articles_of (st : Store) (k : Z) : nat :=
  size (filter (fun x : Z * Article.t => Article.category x.2 = Some k) (articles st)).

(** Some category with slug [s] is stored. *)
Definition category_exists (st : Store) (s : string) : Prop :=
  exists k c, categories st !! k = Some c /\ Category.slug c = s.

(** No article refers to a category whose slug is [s]. *)
Definition category_unused (st : Store) (s : string) : Prop :=
  forall k c pk a,
    categories st !! k = Some c -> Category.slug c = s ->
    articles st !! pk = Some a -> Article.category a <> Some k.

(** ** The fixtures of [tests_urls.py]

    [setUp] stores one category and one article published "now"; the
    filter test adds a second pair.  "Now" is fixed to a sample instant. *)
Module Fixture.
Definition now : DateTime :=
    {| year := 2024; month := 1; day := 15; hour := 10; minute := 30; second := 0 |}.

Definition category : Category.t := Category.mk "Test Category" "test-category".
Definition other_category : Category.t := Category.mk "Other Category" "other-category".

Definition article : Article.t :=
    Article.mk "Test Article" "Test Description" "test-article" now false (Some 1).
Definition other_article : Article.t :=
    Article.mk "Other Article" "Other Description" "other-article" now false (Some 2).

Definition image : ArticleImage.t := ArticleImage.mk "Cover" "images/cover.png" 1.

Definition store : Store :=
    {| categories := {[1 := category]};
       articles := {[1 := article]};
       images := {[7 := image]} |}.

Definition store2 : Store :=
    {| categories := <[2 := other_category]> {[1 := category]};
       articles := <[2 := other_article]> {[1 := article]};
       images := ∅ |}.
End Fixture.

(** [f"{z:02d}"], as [tests_urls.py] writes the month and the day of a
    path: at least two characters, filled with a zero on the left; the
    sign of a negative number counts as a character. *)
Definition format_02d (z : Z) : option string :=
  match str z with
  | Some t => Some (if (0 <=? z) && (z <? 10) then "0" +:+ t else t)
  | None => None
  end.

(** What [reverse] answers, route by route, for any keyword arguments:
    the names must be the route's parameters and the text of every value
    must be accepted by its converter. *)
Inductive reverses : string -> kwargs -> string -> Prop :=
  | reverses_home kw :
      dom kw = ∅ -> reverses "home" kw "/"
  | reverses_list kw :
      dom kw = ∅ -> reverses "articles-list" kw "/articles"
  | reverses_category kw v t :
      dom kw = {["slug"]} -> kw !! "slug" = Some v -> to_url v = Some t ->
      is_run slug_class t = true ->
      reverses "articles-category-list" kw (category_path (text t))
  | reverses_news kw vy vm vd vs ty tm td ts :
      dom kw = {["year"; "month"; "day"; "slug"]} ->
      kw !! "year" = Some vy -> kw !! "month" = Some vm ->
      kw !! "day" = Some vd -> kw !! "slug" = Some vs ->
      to_url vy = Some ty -> to_url vm = Some tm ->
      to_url vd = Some td -> to_url vs = Some ts ->
      is_run int_class ty = true -> is_run int_class tm = true ->
      is_run int_class td = true -> is_run slug_class ts = true ->
      reverses "news-detail" kw
        (news_path (text ty) (text tm) (text td) (text ts)).

(** A run of digits written again from its value: what [str(int(t))]
    gives whenever [int] accepts [t]. *)
Definition canonical (t : string) : string := decimal (int_of_digits (chars t)).

(** The characters a reversed URL is made of. *)
Definition url_char (c : ascii) : bool :=
  slug_class c || bool_decide (c = slash).

(** * Properties *)

(** ** Text *)

Lemma chars_app (a b : string) : chars (a +:+ b) = chars a ++ chars b.
Proof. induction a as [|c a IH]; simpl; [done|]. by f_equal. Qed.

Lemma text_app (a b : list ascii) : text (a ++ b) = text a +:+ text b.
Proof. induction a as [|c a IH]; simpl; [done|]. by rewrite IH. Qed.

Lemma text_chars (s : string) : text (chars s) = s.
Proof. apply String.string_of_list_ascii_of_string. Qed.

Lemma chars_text (l : list ascii) : chars (text l) = l.
Proof. apply String.list_ascii_of_string_of_list_ascii. Qed.

Lemma chars_inj (a b : string) : chars a = chars b -> a = b.
Proof. intros H. by rewrite <- (text_chars a), <- (text_chars b), H. Qed.

Lemma is_run_forallb cls l : is_run cls l = true -> forallb cls l = true.
Proof. by destruct l. Qed.

Lemma is_run_nonempty cls l : is_run cls l = true -> l <> [].
Proof. by destruct l. Qed.

Lemma is_run_cons cls c l :
  is_run cls (c :: l) = cls c && forallb cls l.
Proof. done. Qed.

Lemma forallb_not_elem cls (c : ascii) l :
  cls c = false -> forallb cls l = true -> c ∉ l.
Proof.
  intros Hc Hl Hin. rewrite forallb_forall in Hl.
  apply list_elem_of_In, Hl in Hin. congruence.
Qed.

Lemma slashes_app a b : slashes (a ++ b) = (slashes a + slashes b)%nat.
Proof. unfold slashes. by rewrite filter_app, length_app. Qed.

Lemma slashes_zero l : slashes l = 0%nat <-> slash ∉ l.
Proof.
  unfold slashes. induction l as [|c l IH]; simpl.
  - split; [intros _; apply not_elem_of_nil | done].
  - rewrite filter_cons. destruct (decide (c = slash)) as [->|Hne]; simpl.
    + split; [lia | intros H; exfalso; apply H; left].
    + rewrite IH, not_elem_of_cons. split; [by intros; split; [congruence|]|by intros [_ ?]].
Qed.

Lemma run_slashes cls l :
  cls slash = false -> is_run cls l = true -> slashes l = 0%nat.
Proof.
  intros Hc Hl. apply slashes_zero, (forallb_not_elem cls); [done|].
  by apply is_run_forallb.
Qed.

(** Cutting at the first slash is unambiguous. *)
Lemma app_slash_inj (a a' b b' : list ascii) :
  slash ∉ a -> slash ∉ a' ->
  a ++ slash :: b = a' ++ slash :: b' -> a = a' /\ b = b'.
Proof.
  revert a'. induction a as [|c a IH]; intros [|c' a'] Ha Ha' E; simpl in E.
  - by inversion E.
  - inversion E; subst. exfalso. apply Ha'. left.
  - inversion E; subst. exfalso. apply Ha. left.
  - inversion E; subst. rewrite not_elem_of_cons in Ha, Ha'.
    destruct (IH a') as [-> ->]; tauto.
Qed.

(** ** The matcher against its specification *)

Lemma strip_prefix_app s r : strip_prefix s (s ++ r) = Some r.
Proof.
  induction s as [|c s IH]; simpl; [done|].
  by rewrite bool_decide_true.
Qed.

Lemma strip_prefix_Some s p r : strip_prefix s p = Some r -> p = s ++ r.
Proof.
  revert p. induction s as [|c s IH]; intros p H; simpl in H.
  - by inversion H.
  - destruct p as [|c' p]; [done|]. case_bool_decide; [|done].
    subst. simpl. f_equal. by apply IH.
Qed.

Section MatchPlus.
Context {R : Type} (cls : ascii -> bool) (k : list ascii -> option R).

Lemma match_plus_sound p v r :
    match_plus cls k p = Some (v, r) ->
    exists rest, p = v ++ rest /\ is_run cls v = true /\ k rest = Some r.
  Proof.
    revert v r. induction p as [|c p IH]; intros v r H; simpl in H; [done|].
    destruct (cls c) eqn:Hc; [|done].
    destruct (match_plus cls k p) as [[v' r']|] eqn:Hrec.
    - inversion H; subst. destruct (IH _ _ eq_refl) as (rest & -> & Hv & Hk).
      exists rest. split; [done|]. split; [|done].
      rewrite is_run_cons, Hc. by rewrite (is_run_forallb _ _ Hv).
    - destruct (k p) as [r'|] eqn:Hk; [|done]. inversion H; subst.
      exists p. by rewrite is_run_cons, Hc.
  Qed.

  (** Nothing can be taken from a text that starts outside the class. *)
Lemma match_plus_stop rest :
    match rest with [] => True | c :: _ => cls c = false end ->
    match_plus cls k rest = None.
  Proof. destruct rest as [|c rest]; simpl; [done|]. by intros ->. Qed.

Lemma match_plus_exact v rest r :
    is_run cls v = true ->
    match rest with [] => True | c :: _ => cls c = false end ->
    k rest = Some r ->
    match_plus cls k (v ++ rest) = Some (v, r).
  Proof.
    intros Hv Hrest Hk. induction v as [|c v IH]; [done|].
    rewrite is_run_cons in Hv. apply andb_true_iff in Hv as [Hc Hv].
    simpl. rewrite Hc. destruct v as [|c' v].
    - simpl. by rewrite (match_plus_stop _ Hrest), Hk.
    - by rewrite IH.
  Qed.
End MatchPlus.

Lemma match_parts_sound ps p g : match_parts ps p = Some g -> matches ps p g.
Proof.
  revert p g. induction ps as [|[s|n cv] ps IH]; intros p g H; simpl in H.
  - destruct p; [|done]. inversion H. constructor.
  - destruct (strip_prefix s p) as [p'|] eqn:Hs; [|done].
    apply strip_prefix_Some in Hs as ->. constructor. by apply IH.
  - destruct (match_plus _ _ p) as [[v g']|] eqn:Hm; [|done].
    inversion H; subst.
    apply match_plus_sound in Hm as (rest & -> & Hv & Hk).
    constructor; [done|]. by apply IH.
Qed.

Lemma matches_head_lit c s rest p g :
  matches (Lit (c :: s) :: rest) p g -> exists p', p = c :: p'.
Proof. inversion 1; subst. by eexists. Qed.

Lemma match_parts_complete ps p g :
  separated ps = true -> matches ps p g -> match_parts ps p = Some g.
Proof.
  intros Hsep Hm. induction Hm as [|s rest p g Hm IH|n cv rest v p g Hv Hm IH];
    simpl in *.
  - done.
  - rewrite strip_prefix_app. by apply IH.
  - apply andb_true_iff in Hsep as [Hnext Hsep].
    rewrite (match_plus_exact _ _ v p g); [done|done| |by apply IH].
    destruct rest as [|[[|c s]|] rest]; try done.
    + by inversion Hm.
    + apply matches_head_lit in Hm as [p' ->]. by apply negb_true_iff.
Qed.

Lemma match_parts_spec ps p g :
  separated ps = true -> match_parts ps p = Some g <-> matches ps p g.
Proof.
  intros Hsep. split; [apply match_parts_sound | by apply match_parts_complete].
Qed.

Lemma match_parts_None ps p :
  (forall g, ~ matches ps p g) -> match_parts ps p = None.
Proof.
  intros H. destruct (match_parts ps p) as [g|] eqn:E; [|done].
  exfalso. by apply (H g), match_parts_sound.
Qed.

(** ** The four routes *)

Lemma parts_home : route_to_parts "" = Some [].
Proof. reflexivity. Qed.

Lemma parts_list : route_to_parts "articles" = Some [Lit (chars "articles")].
Proof. reflexivity. Qed.

Lemma parts_category :
  route_to_parts "articles/category/<slug:slug>/" = Some category_parts.
Proof. reflexivity. Qed.

Lemma parts_news :
  route_to_parts "articles/<int:year>/<int:month>/<int:day>/<slug:slug>/"
  = Some news_parts.
Proof. reflexivity. Qed.

Lemma int_class_slash : int_class slash = false.
Proof. reflexivity. Qed.

Lemma slug_class_slash : slug_class slash = false.
Proof. reflexivity. Qed.

Lemma matches_home p g : matches [] p g <-> p = [] /\ g = [].
Proof. split; [by inversion 1 | intros [-> ->]; constructor]. Qed.

Lemma matches_list p g :
  matches [Lit (chars "articles")] p g <-> p = chars "articles" /\ g = [].
Proof.
  split.
  - inversion 1 as [|? ? ? ? Hr|]; subst. apply matches_home in Hr as [-> ->].
    by rewrite app_nil_r.
  - intros [-> ->]. rewrite <- (app_nil_r (chars "articles")). repeat constructor.
Qed.

Lemma matches_category p g :
  matches category_parts p g <->
  exists v, is_run slug_class v = true /\ p = category_chars v /\ g = [("slug", v)].
Proof.
  split.
  - inversion 1 as [|? ? ? ? H1|]; subst.
    inversion H1 as [| |? ? ? v ? ? Hv H2]; subst.
    inversion H2 as [|? ? ? ? H3|]; subst.
    apply matches_home in H3 as [-> ->]. by exists v.
  - intros (v & Hv & -> & ->). unfold category_chars, category_parts.
    constructor. constructor; [done|].
    rewrite <- (app_nil_r [slash]). repeat constructor.
Qed.

Lemma matches_news p g :
  matches news_parts p g <->
  exists y m d s,
    is_run int_class y = true /\ is_run int_class m = true /\
    is_run int_class d = true /\ is_run slug_class s = true /\
    p = news_chars y m d s /\
    g = [("year", y); ("month", m); ("day", d); ("slug", s)].
Proof.
  split.
  - inversion 1 as [|? ? ? ? H1|]; subst.
    inversion H1 as [| |? ? ? y ? ? Hy H2]; subst.
    inversion H2 as [|? ? ? ? H3|]; subst.
    inversion H3 as [| |? ? ? m ? ? Hm H4]; subst.
    inversion H4 as [|? ? ? ? H5|]; subst.
    inversion H5 as [| |? ? ? d ? ? Hd H6]; subst.
    inversion H6 as [|? ? ? ? H7|]; subst.
    inversion H7 as [| |? ? ? s ? ? Hs H8]; subst.
    inversion H8 as [|? ? ? ? H9|]; subst.
    apply matches_home in H9 as [-> ->]. by exists y, m, d, s.
  - intros (y & m & d & s & Hy & Hm & Hd & Hs & -> & ->).
    unfold news_chars, news_parts.
    constructor. constructor; [done|]. apply (matches_lit [slash]).
    constructor; [done|]. apply (matches_lit [slash]).
    constructor; [done|]. apply (matches_lit [slash]).
    constructor; [done|]. rewrite <- (app_nil_r [slash]). repeat constructor.
Qed.

Lemma slashes_cons c l :
  slashes (c :: l) = ((if bool_decide (c = slash) then 1 else 0) + slashes l)%nat.
Proof.
  unfold slashes. rewrite filter_cons.
  destruct (decide (c = slash)); [by rewrite bool_decide_true | by rewrite bool_decide_false].
Qed.

Lemma slashes_category v :
  slashes (category_chars v) = (3 + slashes v)%nat.
Proof.
  unfold category_chars. rewrite !slashes_app.
  change (slashes (chars "articles/category/")) with 2%nat.
  change (slashes [slash]) with 1%nat. lia.
Qed.

Lemma slashes_news y m d s :
  slashes (news_chars y m d s)
  = (5 + slashes y + slashes m + slashes d + slashes s)%nat.
Proof.
  unfold news_chars.
  repeat (rewrite ?slashes_app, ?(slashes_cons slash), ?bool_decide_true by done).
  change (slashes (chars "articles/")) with 1%nat.
  change (slashes []) with 0%nat. lia.
Qed.

Lemma news_chars_inj y m d s y' m' d' s' :
  slash ∉ y' -> slash ∉ m' -> slash ∉ d' -> slash ∉ s' ->
  news_chars y m d s = news_chars y' m' d' s' ->
  y = y' /\ m = m' /\ d = d' /\ s = s'.
Proof.
  intros Hy' Hm' Hd' Hs' E.
  assert (Hn := f_equal slashes E). rewrite !slashes_news in Hn.
  apply slashes_zero in Hy', Hm', Hd', Hs'.
  assert ((slash ∉ y) /\ (slash ∉ m) /\ (slash ∉ d)) as (Hy & Hm & Hd).
  { repeat split; apply slashes_zero; lia. }
  apply slashes_zero in Hy', Hm', Hd'.
  unfold news_chars in E. apply app_inv_head in E.
  apply app_slash_inj in E as [-> E]; [|done..].
  apply app_slash_inj in E as [-> E]; [|done..].
  apply app_slash_inj in E as [-> E]; [|done..].
  by apply app_inv_tail in E as ->.
Qed.

Lemma category_chars_inj v v' : category_chars v = category_chars v' -> v = v'.
Proof.
  unfold category_chars. intros E. apply app_inv_head in E.
  by apply app_inv_tail in E.
Qed.

(** A news-detail path never has the shape of a category path: the
    category route has three slashes, a news-detail path at least five. *)
Lemma news_not_category y m d s v :
  slash ∉ v -> news_chars y m d s <> category_chars v.
Proof.
  intros Hv E. apply slashes_zero in Hv.
  assert (Hn := f_equal slashes E).
  rewrite slashes_news, slashes_category in Hn. lia.
Qed.

(** A path under [articles/category/] is not matched by the news-detail
    route: its first segment after [articles/] starts with a letter. *)
Lemma under_category_not_news t y m d s :
  is_run int_class y = true ->
  chars "articles/category/" ++ t <> news_chars y m d s.
Proof.
  intros Hy E. unfold news_chars in E.
  change (chars "articles/category/") with (chars "articles/" ++ chars "category/") in E.
  rewrite <- app_assoc in E. apply app_inv_head in E.
  destruct y as [|c y]; [done|]. rewrite is_run_cons in Hy.
  apply andb_true_iff in Hy as [Hc _].
  simpl in E. inversion E; subst. done.
Qed.

Lemma category_not_news v y m d s :
  is_run int_class y = true -> category_chars v <> news_chars y m d s.
Proof. apply under_category_not_news. Qed.

(** ** Resolution, route by route *)

Lemma first_match_urlpatterns rest :
  first_match urlpatterns rest =
  match match_with [] HomePageView "home" rest with
  | Some m => Some m
  | None =>
  match match_with [Lit (chars "articles")] ArticleList "articles-list" rest with
  | Some m => Some m
  | None =>
  match match_with category_parts ArticleCategoryList "articles-category-list" rest with
  | Some m => Some m
  | None =>
  match match_with news_parts ArticleDetail "news-detail" rest with
  | Some m => Some m
  | None => None
  end end end end.
Proof.
  unfold urlpatterns. cbn [first_match]. unfold match_pattern.
  cbn [route callback name].
  by rewrite parts_home, parts_list, parts_category, parts_news.
Qed.

Lemma resolve_chars p :
  resolve p =
  match chars p with
  | c :: rest => if bool_decide (c = slash) then first_match urlpatterns rest else None
  | [] => None
  end.
Proof. reflexivity. Qed.

Lemma chars_category_path s :
  chars (category_path s) = slash :: category_chars (chars s).
Proof. unfold category_path. by rewrite !chars_app. Qed.

Lemma chars_news_path y m d s :
  chars (news_path y m d s)
  = slash :: news_chars (chars y) (chars m) (chars d) (chars s).
Proof.
  unfold news_path, news_chars. rewrite !chars_app.
  change (chars "/articles/") with (slash :: chars "articles/").
  change (chars "/") with [slash]. reflexivity.
Qed.

Lemma convert_category v :
  convert_groups category_parts [("slug", v)] = Some (category_kwargs (text v)).
Proof. unfold category_kwargs. cbn [convert_groups].
  change (converter_of category_parts "slug") with (Some SlugConverter).
  cbn [to_python]. by rewrite insert_empty.
Qed.

Lemma convert_news y m d s :
  convert_groups news_parts [("year", y); ("month", m); ("day", d); ("slug", s)]
  = if within_cap y && within_cap m && within_cap d
    then Some (news_kwargs (int_of_digits y) (int_of_digits m) (int_of_digits d)
                 (text s))
    else None.
Proof. unfold news_kwargs. cbn [convert_groups].
  change (converter_of news_parts "year") with (Some IntConverter).
  change (converter_of news_parts "month") with (Some IntConverter).
  change (converter_of news_parts "day") with (Some IntConverter).
  change (converter_of news_parts "slug") with (Some SlugConverter).
  cbn [to_python]. unfold int.
  by destruct (within_cap y), (within_cap m), (within_cap d).
Qed.

Lemma match_with_home_None c rest cb nm : match_with [] cb nm (c :: rest) = None.
Proof. reflexivity. Qed.

Lemma match_with_list_None rest cb nm :
  rest <> chars "articles" ->
  match_with [Lit (chars "articles")] cb nm rest = None.
Proof.
  intros H. unfold match_with. destruct (match_parts _ rest) as [g|] eqn:E; [|done].
  by apply match_parts_sound, matches_list in E as [-> _].
Qed.

Lemma is_run_slash_free cls l :
  cls slash = false -> is_run cls l = true -> slash ∉ l.
Proof. intros Hc Hl. by apply slashes_zero, (run_slashes cls). Qed.

Lemma match_news_None_home y m d s : match_parts [] (news_chars y m d s) = None.
Proof. reflexivity. Qed.

Lemma match_list_None rest :
  rest <> chars "articles" -> match_parts [Lit (chars "articles")] rest = None.
Proof.
  intros H. apply match_parts_None. intros g Hm.
  by apply matches_list in Hm as [-> _].
Qed.

Lemma match_category_chars v :
  match_parts category_parts (category_chars v)
  = if is_run slug_class v then Some [("slug", v)] else None.
Proof.
  destruct (is_run slug_class v) eqn:Hv.
  - apply match_parts_complete; [done|]. apply matches_category. by exists v.
  - apply match_parts_None. intros g (v' & Hv' & E & _)%matches_category.
    apply category_chars_inj in E as ->. congruence.
Qed.

Lemma match_news_chars y m d s :
  match_parts news_parts (news_chars y m d s)
  = if is_run int_class y && is_run int_class m && is_run int_class d
       && is_run slug_class s
    then Some [("year", y); ("month", m); ("day", d); ("slug", s)] else None.
Proof.
  destruct (_ && _) eqn:Hc.
  - repeat (apply andb_true_iff in Hc as [Hc ?]).
    apply match_parts_complete; [done|]. apply matches_news. by exists y, m, d, s.
  - apply match_parts_None.
    intros g (y' & m' & d' & s' & Hy & Hm & Hd & Hs & E & _)%matches_news.
    apply news_chars_inj in E as (-> & -> & -> & ->);
      eauto using is_run_slash_free, int_class_slash, slug_class_slash.
    by rewrite Hy, Hm, Hd, Hs in Hc.
Qed.

Lemma match_category_news y m d s :
  match_parts category_parts (news_chars y m d s) = None.
Proof.
  apply match_parts_None. intros g (v & Hv & E & _)%matches_category.
  revert E. apply news_not_category.
  by apply (is_run_slash_free slug_class).
Qed.

Lemma match_news_category v :
  match_parts news_parts (category_chars v) = None.
Proof.
  apply match_parts_None.
  intros g (y & m & d & s & Hy & _ & _ & _ & E & _)%matches_news.
  revert E. by apply category_not_news.
Qed.

Lemma match_with_category v cb nm :
  match_with category_parts cb nm (category_chars v)
  = if is_run slug_class v
    then Some (ResolverMatch cb nm (category_kwargs (text v))) else None.
Proof.
  unfold match_with. rewrite match_category_chars.
  destruct (is_run slug_class v); [|done]. by rewrite convert_category.
Qed.

Lemma match_with_news y m d s cb nm :
  match_with news_parts cb nm (news_chars y m d s)
  = if is_run int_class y && is_run int_class m && is_run int_class d
       && is_run slug_class s && (within_cap y && within_cap m && within_cap d)
    then Some (ResolverMatch cb nm
                 (news_kwargs (int_of_digits y) (int_of_digits m)
                              (int_of_digits d) (text s)))
    else None.
Proof.
  unfold match_with. rewrite match_news_chars.
  destruct (_ && is_run slug_class s); [|done]. rewrite convert_news.
  by destruct (_ && within_cap d).
Qed.

Lemma match_with_category_news y m d s cb nm :
  match_with category_parts cb nm (news_chars y m d s) = None.
Proof. unfold match_with. by rewrite match_category_news. Qed.

Lemma match_with_news_category v cb nm :
  match_with news_parts cb nm (category_chars v) = None.
Proof. unfold match_with. by rewrite match_news_category. Qed.

Lemma resolve_category_path s :
  resolve (category_path s) =
  if is_slug_text s
  then Some (ResolverMatch ArticleCategoryList "articles-category-list"
               (category_kwargs s))
  else None.
Proof.
  rewrite resolve_chars, chars_category_path, bool_decide_true by done.
  rewrite first_match_urlpatterns.
  change (match_with [] HomePageView "home" (category_chars (chars s)))
    with (@None resolver_match).
  rewrite match_with_list_None by (unfold category_chars; discriminate).
  rewrite match_with_category, match_with_news_category. unfold is_slug_text.
  destruct (is_run slug_class (chars s)); [|done]. by rewrite text_chars.
Qed.

Lemma resolve_news_path y m d s :
  resolve (news_path y m d s) =
  if is_int_text y && is_int_text m && is_int_text d && is_slug_text s
     && (fits y && fits m && fits d)
  then Some (ResolverMatch ArticleDetail "news-detail"
               (news_kwargs (int_of_digits (chars y)) (int_of_digits (chars m))
                            (int_of_digits (chars d)) s))
  else None.
Proof.
  rewrite resolve_chars, chars_news_path, bool_decide_true by done.
  rewrite first_match_urlpatterns.
  change (match_with [] HomePageView "home" (news_chars _ _ _ _))
    with (@None resolver_match).
  rewrite match_with_list_None by (unfold news_chars; discriminate).
  rewrite match_with_category_news, match_with_news.
  unfold is_int_text, is_slug_text, fits. destruct (_ && _); [|done].
  by rewrite text_chars.
Qed.

Lemma match_with_Some ps cb nm p rm :
  match_with ps cb nm p = Some rm ->
  exists g kw, matches ps p g /\ convert_groups ps g = Some kw /\
               rm = ResolverMatch cb nm kw.
Proof.
  unfold match_with. destruct (match_parts ps p) as [g|] eqn:Hm; [|done].
  destruct (convert_groups ps g) as [kw|] eqn:Hc; [|done].
  intros <-%(inj Some). exists g, kw. by split; [apply match_parts_sound|].
Qed.

Lemma resolve_sound p rm : resolve p = Some rm -> resolves p rm.
Proof.
  rewrite resolve_chars. destruct (chars p) as [|c rest] eqn:Hp; [done|].
  case_bool_decide as Hc; [subst c|done].
  rewrite first_match_urlpatterns.
  assert (p = text (slash :: rest)) as -> by (by rewrite <- Hp, text_chars).
  clear Hp. destruct (match_with [] _ _ rest) as [r0|] eqn:H0.
  { apply match_with_Some in H0 as (g & kw & [-> ->]%matches_home & Hk & ->).
    cbn [convert_groups] in Hk. apply (inj Some) in Hk as <-.
    intros <-%(inj Some). constructor. }
  destruct (match_with [Lit _] _ _ rest) as [r1|] eqn:H1.
  { apply match_with_Some in H1 as (g & kw & [-> ->]%matches_list & Hk & ->).
    cbn [convert_groups] in Hk. apply (inj Some) in Hk as <-.
    intros <-%(inj Some). constructor. }
  destruct (match_with category_parts _ _ rest) as [r2|] eqn:H2.
  { apply match_with_Some in H2
      as (g & kw & (v & Hv & -> & ->)%matches_category & Hk & ->).
    rewrite convert_category in Hk. apply (inj Some) in Hk as <-.
    intros <-%(inj Some).
    replace (text (slash :: category_chars v)) with (category_path (text v)).
    - constructor. unfold is_slug_text. by rewrite chars_text.
    - apply chars_inj. by rewrite chars_category_path, !chars_text. }
  destruct (match_with news_parts _ _ rest) as [r3|] eqn:H3; [|done].
  apply match_with_Some in H3
    as (g & kw & (y & m & d & s & Hy & Hm & Hd & Hs & -> & ->)%matches_news & Hk & ->).
  rewrite convert_news in Hk.
  destruct (_ && within_cap d) eqn:Hcap in Hk; [|done].
  apply (inj Some) in Hk as <-.
  apply andb_true_iff in Hcap as [[Cy Cm]%andb_true_iff Cd].
  intros <-%(inj Some).
  replace (text (slash :: news_chars y m d s))
    with (news_path (text y) (text m) (text d) (text s)).
  - rewrite <- (chars_text y) at 2. rewrite <- (chars_text m) at 2.
    rewrite <- (chars_text d) at 2.
    constructor; unfold is_int_text, is_slug_text, fits; by rewrite chars_text.
  - apply chars_inj. by rewrite chars_news_path, !chars_text.
Qed.

Lemma resolve_complete p rm : resolves p rm -> resolve p = Some rm.
Proof.
  destruct 1 as [| |s Hs|y m d s Hy Hm Hd Hs Cy Cm Cd].
  - reflexivity.
  - reflexivity.
  - by rewrite resolve_category_path, Hs.
  - by rewrite resolve_news_path, Hy, Hm, Hd, Hs, Cy, Cm, Cd.
Qed.

Lemma resolve_spec p rm : resolve p = Some rm <-> resolves p rm.
Proof. split; [apply resolve_sound | apply resolve_complete]. Qed.

Lemma digit_val_nonneg c : int_class c = true -> 0 <= digit_val c.
Proof.
  unfold int_class, is_digit, in_range, digit_val.
  intros [H _]%andb_true_iff. apply N.leb_le in H. lia.
Qed.

Lemma fold_digits_nonneg l acc :
  0 <= acc -> forallb int_class l = true ->
  0 <= fold_left (fun a c => 10 * a + digit_val c) l acc.
Proof.
  revert acc. induction l as [|c l IH]; intros acc Hacc Hl; simpl in *; [done|].
  apply andb_true_iff in Hl as [Hc Hl]. apply IH; [|done].
  apply digit_val_nonneg in Hc. lia.
Qed.

Lemma int_of_digits_nonneg (s : string) :
  is_int_text s = true -> 0 <= int_of_digits (chars s).
Proof.
  intros H. apply fold_digits_nonneg; [done|]. by apply is_run_forallb.
Qed.

(** ** Route resolution: the claims *)

(** C5: a path of the news-detail shape whose year, month or day segment
    is not a run of decimal digits is not resolved by any route: the
    resolver answers "not found", and a request for it gets 404 and no
    other error. *)
Theorem malformed_int_not_found (st : Store) (y m d s : string) :
  is_int_text y && is_int_text m && is_int_text d = false ->
  resolve (news_path y m d s) = None /\
  client_get st (news_path y m d s) = Raise Http404.
Proof.
  intros H.
  assert (resolve (news_path y m d s) = None) as Hr.
  { by rewrite resolve_news_path, H. }
  split; [done|]. unfold client_get. by rewrite Hr.
Qed.

Lemma malformed_int_not_found_witness :
  resolve "/articles/20x4/1/15/test-article/" = None /\
  client_get {| categories := ∅; articles := ∅; images := ∅ |}
    "/articles/20x4/1/15/test-article/" = Raise Http404.
Proof.
  apply (malformed_int_not_found _ "20x4" "1" "15" "test-article").
  reflexivity.
Defined.

(** C6, as the claim states it, fails: month 0 is accepted and the path
    resolves to news-detail. *)
Lemma news_detail_zero_month :
  resolve "/articles/2024/0/15/test-article/"
  = Some (ResolverMatch ArticleDetail "news-detail"
            (news_kwargs 2024 0 15 "test-article")).
Proof.
  apply (resolve_complete _ _ (resolves_news "2024" "0" "15" "test-article"
           eq_refl eq_refl eq_refl eq_refl eq_refl eq_refl eq_refl)).
Qed.

(** C6, amended: the year, month and day parameters of news-detail are
    integers from zero up.  The route matches a path only when each of its
    year, month and day segments parses as an integer greater than or
    equal to zero: the segment is a run of decimal digits, [int] gives its
    value, and that value is what the view gets.  Zero is accepted. *)
Theorem news_detail_int_segments (p : string) (rm : resolver_match) :
  resolve p = Some rm -> func rm = ArticleDetail ->
  exists (y m d s : string) (vy vm vd : Z),
    p = news_path y m d s /\
    is_int_text y = true /\ is_int_text m = true /\ is_int_text d = true /\
    int (chars y) = Some vy /\ int (chars m) = Some vm /\
    int (chars d) = Some vd /\
    0 <= vy /\ 0 <= vm /\ 0 <= vd /\
    rm = ResolverMatch ArticleDetail "news-detail" (news_kwargs vy vm vd s).
Proof.
  intros Hr%resolve_sound Hf.
  destruct Hr as [| |s Hs|y m d s Hy Hm Hd Hs Cy Cm Cd]; try discriminate Hf.
  exists y, m, d, s, (int_of_digits (chars y)), (int_of_digits (chars m)),
    (int_of_digits (chars d)).
  unfold int, fits in *. rewrite Cy, Cm, Cd.
  repeat split; auto using int_of_digits_nonneg.
Qed.

Lemma news_detail_int_segments_witness :
  exists (y m d s : string) (vy vm vd : Z),
    "/articles/2024/0/15/test-article/" = news_path y m d s /\
    is_int_text y = true /\ is_int_text m = true /\ is_int_text d = true /\
    int (chars y) = Some vy /\ int (chars m) = Some vm /\
    int (chars d) = Some vd /\
    0 <= vy /\ 0 <= vm /\ 0 <= vd /\
    ResolverMatch ArticleDetail "news-detail" (news_kwargs 2024 0 15 "test-article")
    = ResolverMatch ArticleDetail "news-detail" (news_kwargs vy vm vd s).
Proof.
  apply (news_detail_int_segments "/articles/2024/0/15/test-article/").
  - apply (resolve_complete _ _ (resolves_news "2024" "0" "15" "test-article"
             eq_refl eq_refl eq_refl eq_refl eq_refl eq_refl eq_refl)).
  - reflexivity.
Defined.

(** C9: the two routes with a slug match only a slug segment made of ASCII
    letters, digits, hyphens and underscores.  A path whose slug segment
    has any other character is not found, and whatever either route hands
    to its view as [slug] is made of those characters only. *)
Theorem slug_segment_charset (y m d s : string) :
  forallb slug_class (chars s) = false ->
  resolve (category_path s) = None /\
  resolve (news_path y m d s) = None /\
  (forall p rm,
     resolve p = Some rm ->
     func rm = ArticleCategoryList \/ func rm = ArticleDetail ->
     exists s', match_kwargs rm !! "slug" = Some (VStr s') /\
                is_slug_text s' = true).
Proof.
  intros Hbad.
  assert (is_slug_text s = false) as Hs.
  { unfold is_slug_text, is_run. by destruct (chars s). }
  split; [by rewrite resolve_category_path, Hs|].
  split; [by rewrite resolve_news_path, Hs, andb_false_r|].
  intros p rm Hr Hf. apply resolve_sound in Hr.
  destruct Hr as [| |s' Hs'|y' m' d' s' Hy' Hm' Hd' Hs' Cy' Cm' Cd'];
    try (by destruct Hf as [Hf|Hf]; discriminate Hf).
  - exists s'. split; [|done]. apply lookup_singleton_eq.
  - exists s'. split; [|done]. unfold news_kwargs. cbn [match_kwargs].
    rewrite !lookup_insert_ne by done. apply lookup_singleton_eq.
Qed.

Lemma slug_segment_charset_witness :
  resolve "/articles/category/my.slug/" = None /\
  resolve "/articles/2024/1/15/my slug/" = None.
Proof.
  destruct (slug_segment_charset "2024" "1" "15" "my.slug" eq_refl) as (H1 & _ & _).
  destruct (slug_segment_charset "2024" "1" "15" "my slug" eq_refl) as (_ & H2 & _).
  exact (conj H1 H2).
Defined.

(** C10: resolution is exact on trailing slashes.  [/articles] is the
    articles-list route and [/articles/] is not found; a category path
    without its final slash is not found either. *)
Theorem trailing_slash_exact (s : string) :
  is_slug_text s = true ->
  resolve "/articles" = Some (ResolverMatch ArticleList "articles-list" ∅) /\
  resolve "/articles/" = None /\
  resolve ("/articles/category/" +:+ s) = None /\
  resolve (category_path s)
  = Some (ResolverMatch ArticleCategoryList "articles-category-list"
            (category_kwargs s)).
Proof.
  intros Hs. split; [reflexivity|]. split; [reflexivity|].
  split; [|by rewrite resolve_category_path, Hs].
  destruct (resolve _) as [rm|] eqn:Hr; [exfalso|done].
  apply resolve_sound in Hr. remember ("/articles/category/" +:+ s) as p eqn:Hp.
  apply (f_equal chars) in Hp. rewrite chars_app in Hp.
  change (chars "/articles/category/")
    with (slash :: chars "articles/category/") in Hp.
  assert (slash ∉ chars s) as Hns by (by apply (is_run_slash_free slug_class)).
  destruct Hr as [| |s' Hs'|y m d s' Hy Hm Hd Hs' Cy Cm Cd].
  - discriminate Hp.
  - discriminate Hp.
  - rewrite chars_category_path in Hp. unfold category_chars in Hp.
    apply (inj (cons slash)), app_inv_head in Hp.
    apply Hns. rewrite <- Hp. apply elem_of_app. right. left.
  - rewrite chars_news_path in Hp. apply (inj (cons slash)) in Hp.
    symmetry in Hp. revert Hp. by apply under_category_not_news.
Qed.

Lemma trailing_slash_exact_witness :
  resolve "/articles" = Some (ResolverMatch ArticleList "articles-list" ∅) /\
  resolve "/articles/" = None /\
  resolve "/articles/category/test-category" = None /\
  resolve "/articles/category/test-category/"
  = Some (ResolverMatch ArticleCategoryList "articles-category-list"
            (category_kwargs "test-category")).
Proof. apply (trailing_slash_exact "test-category"). reflexivity. Defined.

(** ** Decimal text and its value *)

Lemma uint_digits d :
  forallb int_class (chars (NilEmpty.string_of_uint d)) = true.
Proof. induction d; simpl; auto. Qed.

Lemma uint_run d : is_int_text (NilZero.string_of_uint d) = true.
Proof.
  unfold is_int_text.
  destruct d as [|d|d|d|d|d|d|d|d|d|d]; [reflexivity | apply (uint_digits d)..].
Qed.

Lemma decimal_nonneg z : 0 <= z -> is_int_text (decimal z) = true.
Proof.
  intros Hz. unfold decimal. destruct z as [|p|p]; [reflexivity| |lia].
  apply uint_run.
Qed.

Lemma decimal_negative z : z < 0 -> is_int_text (decimal z) = false.
Proof. by destruct z. Qed.

Lemma fold_digits_uint d acc :
  fold_left (fun a c => 10 * a + digit_val c) (chars (NilEmpty.string_of_uint d)) acc
  = acc * 10 ^ Z.of_N (Unsigned.usize d) + Z.of_N (Unsigned.of_lu (Decimal.rev d)).
Proof.
  revert acc. induction d; intros acc;
    [ simpl; lia | .. ];
    cbn [NilEmpty.string_of_uint chars String.list_ascii_of_string fold_left];
    fold (chars (NilEmpty.string_of_uint d)); rewrite IHd;
    unfold Decimal.rev; cbn [Decimal.revapp Unsigned.usize];
    rewrite (Unsigned.of_lu_revapp d (_ Decimal.Nil));
    fold (Decimal.rev d);
    rewrite N2Z.inj_succ, Z.pow_succ_r by lia;
    rewrite N2Z.inj_add, N2Z.inj_mul, N2Z.inj_pow;
    cbn [Unsigned.of_lu]; unfold digit_val; simpl (Z.of_N (code _));
    simpl (Z.of_N (_ + 10 * 0)); simpl (Z.of_N (10 * 0)); lia.
Qed.

Lemma decimal_pos p :
  decimal (Z.pos p) = NilEmpty.string_of_uint (Pos.to_uint p).
Proof.
  unfold decimal. cbn [Z.to_int NilZero.string_of_int].
  pose proof (Unsigned.to_uint_nonnil p). by destruct (Pos.to_uint p).
Qed.

(** The digits of a number denote that number. *)
Lemma int_of_decimal z : 0 <= z -> int_of_digits (chars (decimal z)) = z.
Proof.
  intros Hz. destruct z as [|p|p]; [reflexivity| |lia].
  rewrite decimal_pos. unfold int_of_digits.
  rewrite fold_digits_uint, <- Unsigned.of_uint_alt, Unsigned.of_to. lia.
Qed.

Lemma digit_val_le c : int_class c = true -> digit_val c <= 9.
Proof.
  unfold int_class, is_digit, in_range, digit_val.
  intros [_ H]%andb_true_iff. apply N.leb_le in H. lia.
Qed.

Lemma fold_digits_bounds l acc :
  forallb int_class l = true -> 0 <= acc ->
  acc * 10 ^ Z.of_nat (length l)
  <= fold_left (fun a c => 10 * a + digit_val c) l acc
  < (acc + 1) * 10 ^ Z.of_nat (length l).
Proof.
  revert acc. induction l as [|c l IH]; intros acc Hl Hacc.
  - simpl. lia.
  - cbn [forallb] in Hl. apply andb_true_iff in Hl as [Hc Hl].
    pose proof (digit_val_nonneg c Hc). pose proof (digit_val_le c Hc).
    cbn [fold_left length]. rewrite Nat2Z.inj_succ, Z.pow_succ_r by lia.
    specialize (IH (10 * acc + digit_val c) Hl ltac:(lia)).
    assert (0 < 10 ^ Z.of_nat (length l)) by (apply Z.pow_pos_nonneg; lia).
    nia.
Qed.

Lemma int_of_digits_lt l :
  forallb int_class l = true -> int_of_digits l < 10 ^ Z.of_nat (length l).
Proof.
  intros Hl. pose proof (fold_digits_bounds l 0 Hl ltac:(lia)) as H.
  unfold int_of_digits. lia.
Qed.

Lemma nzhead_not_zero d d' : Decimal.nzhead d <> Decimal.D0 d'.
Proof. induction d; simpl; congruence. Qed.

(** A positive number is written without a leading zero. *)
Lemma decimal_pos_head p :
  exists c l, chars (decimal (Z.pos p)) = c :: l /\
              forallb int_class (c :: l) = true /\ 1 <= digit_val c.
Proof.
  rewrite decimal_pos.
  assert (Pos.to_uint p = Decimal.unorm (Pos.to_uint p)) as Hn.
  { rewrite <- Unsigned.to_of, Unsigned.of_to. reflexivity. }
  pose proof (Unsigned.to_uint_nonzero p) as Hz.
  pose proof (uint_digits (Pos.to_uint p)) as Hd.
  unfold Decimal.unorm in Hn.
  pose proof (nzhead_not_zero (Pos.to_uint p)) as Hh.
  destruct (Decimal.nzhead (Pos.to_uint p)) eqn:E; rewrite Hn in *;
    try (by exfalso; apply Hz);
    try (by exfalso; eapply Hh);
    eexists _, _; (split; [reflexivity|]); (split; [exact Hd|]);
    by vm_compute.
Qed.

Section Cap.
Variable n : Z.
Hypothesis Hn : 1 <= n.

Lemma decimal_length_cap z :
  0 <= z ->
  (Z.of_nat (length (chars (decimal z))) <=? n) = (z <? 10 ^ n).
Proof.
  intros Hz. destruct (Z.ltb_spec z (10 ^ n)) as [Hlt|Hge].
  - apply Z.leb_le. destruct z as [|p|p]; [simpl; lia| |lia].
    destruct (decimal_pos_head p) as (c & l & E & Hd & Hc).
    pose proof (int_of_decimal (Z.pos p) ltac:(lia)) as Hv. rewrite E in *.
    cbn [forallb] in Hd. apply andb_true_iff in Hd as [Hdc Hdl].
    pose proof (fold_digits_bounds l (digit_val c) Hdl ltac:(lia)) as Hb.
    unfold int_of_digits in Hv. cbn [fold_left] in Hv.
    replace (10 * 0 + digit_val c) with (digit_val c) in Hv by lia.
    rewrite Hv in Hb. cbn [length]. rewrite Nat2Z.inj_succ.
    destruct (Z.le_gt_cases n (Z.of_nat (length l))) as [Hbig|]; [|lia].
    pose proof (Z.pow_le_mono_r 10 n (Z.of_nat (length l)) ltac:(lia) Hbig).
    assert (0 < 10 ^ Z.of_nat (length l)) by (apply Z.pow_pos_nonneg; lia).
    nia.
  - apply Z.leb_gt.
    pose proof (decimal_nonneg z Hz) as Hr. apply is_run_forallb in Hr.
    pose proof (int_of_digits_lt _ Hr) as Hv. rewrite int_of_decimal in Hv by done.
    destruct (Z.le_gt_cases (Z.of_nat (length (chars (decimal z)))) n) as [Hs|]; [|lia].
    pose proof (Z.pow_le_mono_r 10 _ n ltac:(lia) Hs). lia.
Qed.
End Cap.

Lemma str_nonneg z :
  0 <= z -> str z = if z <? 10 ^ int_max_str_digits then Some (decimal z) else None.
Proof.
  intros Hz. unfold str, within_cap. rewrite Z.abs_eq by done.
  by rewrite decimal_length_cap.
Qed.

Lemma str_representable z : representable z = true -> str z = Some (decimal z).
Proof.
  intros [Hz Hc]%andb_true_iff. apply Z.leb_le in Hz.
  by rewrite str_nonneg, Hc.
Qed.

Lemma str_Some z t : str z = Some t -> t = decimal z.
Proof. unfold str. destruct (within_cap _); congruence. Qed.

(** [str] writes a run of digits exactly for the representable integers. *)
Lemma str_digits z t :
  str z = Some t -> is_int_text t = true -> representable z = true.
Proof.
  intros Hs Ht. pose proof (str_Some _ _ Hs) as ->.
  destruct (Z.le_gt_cases 0 z) as [Hz|Hz].
  - rewrite str_nonneg in Hs by done. unfold representable.
    destruct (z <? _); [|done]. by rewrite (proj2 (Z.leb_le 0 z)).
  - rewrite decimal_negative in Ht by lia. done.
Qed.

Lemma decimal_fits z : representable z = true -> fits (decimal z) = true.
Proof.
  intros [Hz Hc]%andb_true_iff. apply Z.leb_le in Hz.
  unfold fits, within_cap. by rewrite decimal_length_cap.
Qed.

Lemma int_of_digits_representable l :
  is_run int_class l = true -> within_cap l = true ->
  representable (int_of_digits l) = true.
Proof.
  intros Hr%is_run_forallb Hc. unfold representable.
  pose proof (fold_digits_nonneg l 0 ltac:(lia) Hr) as H0.
  pose proof (int_of_digits_lt l Hr) as H1. unfold within_cap in Hc.
  apply Z.leb_le in Hc.
  pose proof (Z.pow_le_mono_r 10 _ _ ltac:(lia) Hc).
  apply andb_true_iff. split; [apply Z.leb_le; exact H0 | apply Z.ltb_lt; lia].
Qed.

(** ** Reverse construction *)

Lemma quote_safe l : forallb url_safe l = true -> quote l = l.
Proof.
  unfold quote. induction l as [|c l IH]; [done|].
  cbn [forallb map concat]. intros [Hc Hl]%andb_true_iff.
  unfold quote_char at 1. rewrite Hc. cbn [app]. f_equal. by apply IH.
Qed.

Lemma slug_class_safe c : slug_class c = true -> url_safe c = true.
Proof.
  unfold slug_class, url_safe, always_safe.
  destruct (is_lower c), (is_upper c), (is_digit c); simpl; try done.
  intros [H|H]%orb_true_iff; apply bool_decide_eq_true in H; by subst.
Qed.

Lemma int_class_safe c : int_class c = true -> url_safe c = true.
Proof.
  unfold int_class, url_safe, always_safe. intros ->.
  by rewrite !orb_true_r.
Qed.

Lemma forallb_impl (P Q : ascii -> bool) l :
  (forall c, P c = true -> Q c = true) ->
  forallb P l = true -> forallb Q l = true.
Proof. rewrite !forallb_forall. auto. Qed.

Lemma run_safe cls l :
  (forall c, cls c = true -> url_safe c = true) ->
  is_run cls l = true -> forallb url_safe l = true.
Proof. intros H Hl. by apply (forallb_impl cls), is_run_forallb. Qed.

Lemma reverse_urlpatterns n kw :
  reverse n kw =
  first_reverse
    [ path "articles/<int:year>/<int:month>/<int:day>/<slug:slug>/"
        ArticleDetail "news-detail";
      path "articles/category/<slug:slug>/" ArticleCategoryList
        "articles-category-list";
      path "articles" ArticleList "articles-list";
      path "" HomePageView "home" ] n kw.
Proof. reflexivity. Qed.

Lemma escape_leading_articles l :
  escape_leading_slashes (slash :: "a"%char :: l) = slash :: "a"%char :: l.
Proof.
  unfold escape_leading_slashes.
  by rewrite (bool_decide_false ("a"%char = slash)), andb_false_r.
Qed.

Lemma quoted_category v :
  is_run slug_class v = true ->
  text (escape_leading_slashes (quote (slash :: category_chars v)))
  = category_path (text v).
Proof.
  intros Hv. rewrite quote_safe.
  - apply chars_inj. rewrite chars_text, chars_category_path, chars_text.
    apply escape_leading_articles.
  - unfold category_chars. cbn [forallb]. rewrite !forallb_app.
    rewrite (run_safe slug_class _ slug_class_safe Hv). reflexivity.
Qed.

Lemma quoted_news y m d v :
  is_run int_class y = true -> is_run int_class m = true ->
  is_run int_class d = true -> is_run slug_class v = true ->
  text (escape_leading_slashes (quote (slash :: news_chars y m d v)))
  = news_path (text y) (text m) (text d) (text v).
Proof.
  intros Hy Hm Hd Hv. rewrite quote_safe.
  - apply chars_inj. rewrite chars_text, chars_news_path, !chars_text.
    apply escape_leading_articles.
  - unfold news_chars. cbn [forallb].
    repeat (rewrite ?forallb_app; cbn [forallb]).
    rewrite (run_safe int_class _ int_class_safe Hy).
    rewrite (run_safe int_class _ int_class_safe Hm).
    rewrite (run_safe int_class _ int_class_safe Hd).
    rewrite (run_safe slug_class _ slug_class_safe Hv). reflexivity.
Qed.

Lemma substitute_category_inv (kw : kwargs) cand :
  substitute category_parts kw = Some cand <->
  exists v t, kw !! "slug" = Some v /\ to_url v = Some t /\
              cand = category_chars t.
Proof.
  unfold category_parts. cbn [substitute]. split.
  - destruct (kw !! "slug") as [v|]; [|done].
    destruct (to_url v) as [t|] eqn:Ht; [|done].
    intros <-%(inj Some). by exists v, t.
  - intros (v & t & -> & -> & ->). reflexivity.
Qed.

Lemma substitute_news_inv (kw : kwargs) cand :
  substitute news_parts kw = Some cand <->
  exists vy vm vd vs ty tm td ts,
    kw !! "year" = Some vy /\ kw !! "month" = Some vm /\
    kw !! "day" = Some vd /\ kw !! "slug" = Some vs /\
    to_url vy = Some ty /\ to_url vm = Some tm /\
    to_url vd = Some td /\ to_url vs = Some ts /\
    cand = news_chars ty tm td ts.
Proof.
  unfold news_parts. cbn [substitute]. split.
  - intros H.
    destruct (kw !! "year") as [vy|] eqn:Hy; [|discriminate H].
    destruct (to_url vy) as [ty|] eqn:Ty; [|discriminate H].
    destruct (kw !! "month") as [vm|] eqn:Hm; [|discriminate H].
    destruct (to_url vm) as [tm|] eqn:Tm; [|discriminate H].
    destruct (kw !! "day") as [vd|] eqn:Hd; [|discriminate H].
    destruct (to_url vd) as [td|] eqn:Td; [|discriminate H].
    destruct (kw !! "slug") as [vs|] eqn:Hs; [|discriminate H].
    destruct (to_url vs) as [ts|] eqn:Ts; [|discriminate H].
    apply (inj Some) in H as <-. by exists vy, vm, vd, vs, ty, tm, td, ts.
  - intros (vy & vm & vd & vs & ty & tm & td & ts
            & -> & -> & -> & -> & -> & -> & -> & -> & ->). reflexivity.
Qed.

(** Each of the two routes with parameters, as a candidate of [reverse]. *)
Lemma reverse_pattern_category (kw : kwargs) v t :
  dom kw = {["slug"]} -> kw !! "slug" = Some v -> to_url v = Some t ->
  reverse_pattern
    (path "articles/category/<slug:slug>/" ArticleCategoryList
       "articles-category-list") kw
  = if is_run slug_class t then Some (category_path (text t)) else None.
Proof.
  intros Hd Hv Ht. unfold reverse_pattern. cbn [route]. rewrite parts_category.
  rewrite bool_decide_true by (rewrite Hd; set_solver).
  rewrite (proj2 (substitute_category_inv kw (category_chars t)))
    by (by exists v, t).
  rewrite match_category_chars.
  destruct (is_run slug_class t) eqn:Hr; [|done]. by rewrite quoted_category.
Qed.

Lemma reverse_pattern_news (kw : kwargs) vy vm vd vs ty tm td ts :
  dom kw = {["year"; "month"; "day"; "slug"]} ->
  kw !! "year" = Some vy -> kw !! "month" = Some vm ->
  kw !! "day" = Some vd -> kw !! "slug" = Some vs ->
  to_url vy = Some ty -> to_url vm = Some tm ->
  to_url vd = Some td -> to_url vs = Some ts ->
  reverse_pattern
    (path "articles/<int:year>/<int:month>/<int:day>/<slug:slug>/"
       ArticleDetail "news-detail") kw
  = if is_run int_class ty && is_run int_class tm && is_run int_class td
       && is_run slug_class ts
    then Some (news_path (text ty) (text tm) (text td) (text ts)) else None.
Proof.
  intros Hd Hy Hm Hdd Hs Ty Tm Td Ts.
  unfold reverse_pattern. cbn [route]. rewrite parts_news.
  rewrite bool_decide_true by (rewrite Hd; set_solver).
  rewrite (proj2 (substitute_news_inv kw (news_chars ty tm td ts)))
    by (by exists vy, vm, vd, vs, ty, tm, td, ts).
  rewrite match_news_chars.
  destruct (is_run int_class ty) eqn:Ry; [|done].
  destruct (is_run int_class tm) eqn:Rm; [|done].
  destruct (is_run int_class td) eqn:Rd; [|done].
  destruct (is_run slug_class ts) eqn:Rs; [|done].
  cbn [andb]. by rewrite quoted_news.
Qed.

Lemma reverse_pattern_sound u kw url :
  u ∈ urlpatterns -> reverse_pattern u kw = Some url -> reverses (name u) kw url.
Proof.
  unfold urlpatterns. intros Hin.
  repeat (apply elem_of_cons in Hin as [->|Hin]); [..|by apply elem_of_nil in Hin];
    unfold reverse_pattern; cbn [route name].
  - rewrite parts_home. case_bool_decide as Hd; [|done].
    cbn [substitute match_parts]. intros <-%(inj Some). by constructor.
  - rewrite parts_list. case_bool_decide as Hd; [|done].
    cbn [substitute]. destruct (match_parts _ _); [|done].
    intros <-%(inj Some). by constructor.
  - rewrite parts_category. case_bool_decide as Hd; [|done].
    destruct (substitute category_parts kw) as [cand|] eqn:Hs; [|done].
    apply substitute_category_inv in Hs as (v & t & Hv & Ht & ->).
    rewrite match_category_chars.
    destruct (is_run slug_class t) eqn:Hr; [|done].
    intros <-%(inj Some). rewrite quoted_category by done.
    apply (reverses_category kw v t); [|done..]. rewrite Hd. set_solver.
  - rewrite parts_news. case_bool_decide as Hd; [|done].
    destruct (substitute news_parts kw) as [cand|] eqn:Hs; [|done].
    apply substitute_news_inv in Hs
      as (vy & vm & vd & vs & ty & tm & td & ts
          & Hy & Hm & Hdd & Hs & Ty & Tm & Td & Ts & ->).
    rewrite match_news_chars.
    destruct (is_run int_class ty) eqn:Ry; [|done].
    destruct (is_run int_class tm) eqn:Rm; [|done].
    destruct (is_run int_class td) eqn:Rd; [|done].
    destruct (is_run slug_class ts) eqn:Rs; [|done].
    cbn [andb]. intros <-%(inj Some). rewrite quoted_news by done.
    apply (reverses_news kw vy vm vd vs ty tm td ts); [|done..].
    rewrite Hd. set_solver.
Qed.

Lemma first_reverse_skip u us n kw :
  name u <> n -> first_reverse (u :: us) n kw = first_reverse us n kw.
Proof. intros H. cbn [first_reverse]. by rewrite bool_decide_false. Qed.

Lemma first_reverse_hit u us n kw r :
  name u = n -> reverse_pattern u kw = Some r ->
  first_reverse (u :: us) n kw = Some r.
Proof. intros H Hr. cbn [first_reverse]. by rewrite bool_decide_true, Hr. Qed.

Lemma first_reverse_named u us n kw :
  name u = n ->
  first_reverse (u :: us) n kw
  = match reverse_pattern u kw with
    | Some r => Some r
    | None => first_reverse us n kw
    end.
Proof. intros H. cbn [first_reverse]. by rewrite bool_decide_true. Qed.

Lemma first_reverse_Some us n kw url :
  first_reverse us n kw = Some url ->
  exists u, u ∈ us /\ name u = n /\ reverse_pattern u kw = Some url.
Proof.
  induction us as [|u us IH]; [done|]. cbn [first_reverse].
  case_bool_decide as Hn.
  - destruct (reverse_pattern u kw) as [r|] eqn:Hr.
    + intros [= ->]. exists u. split; [left|done].
    + intros (u' & Hin & H)%IH. exists u'. split; [by right|done].
  - intros (u' & Hin & H)%IH. exists u'. split; [by right|done].
Qed.

Lemma reverse_sound n kw url : reverse n kw = Some url -> reverses n kw url.
Proof.
  unfold reverse, reverse_in.
  intros (u & Hin & <- & Hr)%first_reverse_Some.
  apply reverse_pattern_sound; [|done].
  apply list_elem_of_In, in_rev, list_elem_of_In in Hin. done.
Qed.

Lemma reverse_complete n kw url : reverses n kw url -> reverse n kw = Some url.
Proof.
  destruct 1 as [kw Hd|kw Hd|kw v t Hd Hv Ht Hr
                |kw vy vm vd vs ty tm td ts Hd Hy Hm Hdd Hs Ty Tm Td Ts Ry Rm Rd Rs].
  - apply dom_empty_inv_L in Hd as ->. by vm_compute.
  - apply dom_empty_inv_L in Hd as ->. by vm_compute.
  - rewrite reverse_urlpatterns, first_reverse_skip by discriminate.
    apply first_reverse_hit; [done|].
    by rewrite (reverse_pattern_category kw v t), Hr.
  - rewrite reverse_urlpatterns. apply first_reverse_hit; [done|].
    by rewrite (reverse_pattern_news kw vy vm vd vs ty tm td ts), Ry, Rm, Rd, Rs.
Qed.

Lemma dom_category_kwargs s : dom (category_kwargs s) = {["slug"]}.
Proof. unfold category_kwargs. by rewrite dom_singleton_L. Qed.

Lemma dom_news_kwargs y m d s :
  dom (news_kwargs y m d s) = {["year"; "month"; "day"; "slug"]}.
Proof.
  unfold news_kwargs. rewrite !dom_insert_L, dom_singleton_L. set_solver.
Qed.

Lemma to_url_representable z :
  representable z = true -> to_url (VInt z) = Some (chars (decimal z)).
Proof. intros H. cbn [to_url]. by rewrite str_representable. Qed.

Lemma representable_run z :
  representable z = true -> is_run int_class (chars (decimal z)) = true.
Proof.
  intros [Hz _]%andb_true_iff. apply Z.leb_le in Hz. by apply decimal_nonneg.
Qed.

Lemma reverse_category s :
  is_slug_text s = true ->
  reverse "articles-category-list" (category_kwargs s) = Some (category_path s).
Proof.
  intros Hs.
  replace (category_path s) with (category_path (text (chars s)))
    by (by rewrite text_chars).
  apply reverse_complete.
  apply (reverses_category _ (VStr s)); [apply dom_category_kwargs|done..].
Qed.

Lemma reverse_news y m d s :
  representable y = true -> representable m = true -> representable d = true ->
  is_slug_text s = true ->
  reverse "news-detail" (news_kwargs y m d s)
  = Some (news_path (decimal y) (decimal m) (decimal d) s).
Proof.
  intros Hy Hm Hd Hs.
  replace (news_path (decimal y) (decimal m) (decimal d) s)
    with (news_path (text (chars (decimal y))) (text (chars (decimal m)))
            (text (chars (decimal d))) (text (chars s)))
    by (by rewrite !text_chars).
  apply reverse_complete.
  apply (reverses_news _ (VInt y) (VInt m) (VInt d) (VStr s));
    auto using dom_news_kwargs, to_url_representable, representable_run.
Qed.

Lemma representable_bounds z :
  0 <= z -> z < 10 ^ int_max_str_digits -> representable z = true.
Proof.
  intros H0 H1. apply andb_true_iff.
  split; [by apply Z.leb_le | by apply Z.ltb_lt].
Qed.

(** ** Reverse construction: the claims *)

(** C2: reverse construction gives exactly [/], [/articles],
    [/articles/category/<s>/] and [/articles/<y>/<m>/<d>/<s>/] for every
    slug [s] and every year, month and day from zero up that the
    interpreter writes in decimal (at most [int_max_str_digits] digits):
    articles-list ends without a slash, the other three with one. *)
Theorem reverse_exact (y m d : Z) (s : string) :
  0 <= y < 10 ^ int_max_str_digits ->
  0 <= m < 10 ^ int_max_str_digits ->
  0 <= d < 10 ^ int_max_str_digits ->
  is_slug_text s = true ->
  reverse "home" ∅ = Some "/" /\
  reverse "articles-list" ∅ = Some "/articles" /\
  reverse "articles-category-list" (category_kwargs s)
  = Some ("/articles/category/" +:+ s +:+ "/") /\
  reverse "news-detail" (news_kwargs y m d s)
  = Some ("/articles/" +:+ decimal y +:+ "/" +:+ decimal m +:+ "/"
          +:+ decimal d +:+ "/" +:+ s +:+ "/").
Proof.
  intros [Hy Hy'] [Hm Hm'] [Hd Hd'] Hs.
  split; [by vm_compute|]. split; [by vm_compute|]. split.
  - by apply reverse_category.
  - apply reverse_news; auto using representable_bounds.
Qed.

Lemma reverse_exact_witness :
  reverse "home" ∅ = Some "/" /\
  reverse "articles-list" ∅ = Some "/articles" /\
  reverse "articles-category-list" (category_kwargs "test-slug")
  = Some "/articles/category/test-slug/" /\
  reverse "news-detail" (news_kwargs 2024 1 15 "test-article")
  = Some "/articles/2024/1/15/test-article/".
Proof.
  assert (forall z, (0 <=? z) && (z <? 10 ^ int_max_str_digits) = true ->
                    0 <= z < 10 ^ int_max_str_digits) as Hb.
  { intros z [H0 H1]%andb_true_iff. split; [by apply Z.leb_le | by apply Z.ltb_lt]. }
  destruct (reverse_exact 2024 1 15 "test-slug") as (H1 & H2 & H3 & _);
    [by apply Hb; vm_compute | by apply Hb; vm_compute
    | by apply Hb; vm_compute | reflexivity |].
  destruct (reverse_exact 2024 1 15 "test-article") as (_ & _ & _ & H4);
    [by apply Hb; vm_compute | by apply Hb; vm_compute
    | by apply Hb; vm_compute | reflexivity |].
  exact (conj H1 (conj H2 (conj H3 H4))).
Defined.

(** ** Admin layer: the claim *)

(** C8: [delete_file pk] removes the image whose primary key is [pk] when
    there is one, leaving every other image, every article and every
    category as they were; when there is none it raises "not found" and
    the store is unchanged. *)
Theorem delete_file_by_pk (pk : Z) (st : Store) :
  match images st !! pk with
  | Some _ =>
      exists st', delete_file pk st = (Ok tt, st') /\
        images st' !! pk = None /\
        (forall k, k <> pk -> images st' !! k = images st !! k) /\
        articles st' = articles st /\ categories st' = categories st
  | None => delete_file pk st = (Raise Http404, st)
  end.
Proof.
  unfold delete_file, bind, get_image_or_404, delete_image.
  destruct (images st !! pk) as [img|] eqn:Hpk; [|done].
  eexists. split; [reflexivity|]. cbn [images articles categories fst].
  split; [apply lookup_delete_eq|]. split; [|done].
  intros k Hk. by apply lookup_delete_ne.
Qed.

Example delete_file_present :
  delete_file 7 Fixture.store
  = (Ok tt, {| categories := {[1 := Fixture.category]};
               articles := {[1 := Fixture.article]};
               images := ∅ |}).
Proof. vm_compute. reflexivity. Qed.

Example delete_file_absent :
  delete_file 8 Fixture.store = (Raise Http404, Fixture.store).
Proof. vm_compute. reflexivity. Qed.

(** ** Query layer *)

Lemma elem_of_all_articles st pk a :
  (pk, a) ∈ all_articles st <-> articles st !! pk = Some a.
Proof. apply elem_of_map_to_list. Qed.

Lemma NoDup_all_articles st : NoDup (all_articles st).
Proof. apply NoDup_map_to_list. Qed.

Lemma elem_of_filter_day_slug st y m d s pk a :
  (pk, a) ∈ filter_day_slug st y m d s <->
  articles st !! pk = Some a /\ Article.slug a = s /\
  on_day (Article.pub_date a) y m d.
Proof.
  unfold filter_day_slug. rewrite list_elem_of_filter, elem_of_all_articles.
  simpl. tauto.
Qed.

Lemma elem_of_filter_category_slug st s pk a :
  (pk, a) ∈ filter_category_slug st s <->
  articles st !! pk = Some a /\ category_slug st a = Some s.
Proof.
  unfold filter_category_slug. rewrite list_elem_of_filter, elem_of_all_articles.
  simpl. tauto.
Qed.

Section Lists.
Context {A : Type}.

Lemma nil_no_elem (l : list A) : l = [] <-> forall x, x ∉ l.
  Proof.
    split; [intros -> x; apply not_elem_of_nil|].
    destruct l as [|x l]; [done|]. intros H. exfalso. apply (H x). left.
  Qed.

Lemma NoDup_singleton_iff (l : list A) (x : A) :
    NoDup l -> l = [x] <-> x ∈ l /\ forall y, y ∈ l -> y = x.
  Proof.
    intros Hnd. split.
    - intros ->. split; [left|]. by intros y ->%list_elem_of_singleton.
    - intros [Hx Hall]. destruct l as [|a l]; [by apply elem_of_nil in Hx|].
      assert (a = x) as -> by (apply Hall; left).
      destruct l as [|b l]; [done|]. exfalso.
      assert (b = x) as -> by (apply Hall; right; left).
      apply NoDup_cons in Hnd as [Hnot _]. apply Hnot. left.
  Qed.

Lemma get_object_404 (l : list A) :
    get_object_or_404 l = Raise Http404 <-> l = [].
  Proof. by destruct l as [|x [|y l]]. Qed.

Lemma get_object_Ok (l : list A) (x : A) :
    get_object_or_404 l = Ok x <-> l = [x].
  Proof.
    destruct l as [|a [|b l]]; simpl; split; try done.
    - by intros [= ->].
    - by intros [= ->].
  Qed.
End Lists.

Lemma item_response_inj a b : item_response a = item_response b -> a = b.
Proof.
  intros H. apply (f_equal (fun r => context r !! "item")) in H.
  unfold item_response in H. cbn [context] in H.
  rewrite !lookup_singleton_eq in H. by injection H.
Qed.

Lemma detail_view_404 st y m d s :
  article_detail_view st y m d s = Raise Http404 <->
  filter_day_slug st y m d s = [].
Proof.
  unfold article_detail_view. rewrite <- get_object_404.
  destruct (get_object_or_404 _) as [x|e]; [done|]. split; congruence.
Qed.

Lemma detail_view_Ok st y m d s x :
  article_detail_view st y m d s = Ok (item_response x) <->
  filter_day_slug st y m d s = [x].
Proof.
  unfold article_detail_view. rewrite <- get_object_Ok.
  destruct (get_object_or_404 _) as [x'|e]; [|done]. split.
  - intros H. f_equal. apply item_response_inj. congruence.
  - intros H. do 2 f_equal. congruence.
Qed.

(** Whether any stored article has slug [s] can be decided. *)
Lemma slug_used_dec st s :
  (exists pk a, articles st !! pk = Some a /\ Article.slug a = s) \/
  (forall pk a, articles st !! pk = Some a -> Article.slug a <> s).
Proof.
  destruct (filter (fun x : Z * Article.t => Article.slug x.2 = s) (all_articles st))
    as [|[pk a] l] eqn:E.
  - right. intros pk a Ha Hs.
    apply (filter_nil_not_elem_of _ _ (pk, a)) in E; [|done].
    apply E. by apply elem_of_all_articles.
  - left. exists pk, a.
    assert ((pk, a) ∈ filter (fun x : Z * Article.t => Article.slug x.2 = s)
                        (all_articles st)) as Hin by (rewrite E; left).
    apply list_elem_of_filter in Hin as [Hs Hin].
    by apply elem_of_all_articles in Hin.
Qed.

(** ** Query layer: the claims *)

(** C1: news-detail answers with the article that has the given slug and
    was published on the given day, and with that one only; it answers
    "not found" (status 404) exactly when no article has the slug, or
    articles have the slug but none of them was published on that day. *)
Theorem news_detail_lookup (st : Store) (y m d : Z) (s : string) :
  (article_detail_view st y m d s = Raise Http404 <->
     (forall pk a, articles st !! pk = Some a -> Article.slug a <> s) \/
     ((exists pk a, articles st !! pk = Some a /\ Article.slug a = s) /\
      forall pk a, articles st !! pk = Some a -> Article.slug a = s ->
                   ~ on_day (Article.pub_date a) y m d)) /\
  (http_status (article_detail_view st y m d s) = 404 <->
     article_detail_view st y m d s = Raise Http404) /\
  (forall pk a,
     article_detail_view st y m d s = Ok (item_response (pk, a)) <->
     articles st !! pk = Some a /\ Article.slug a = s /\
     on_day (Article.pub_date a) y m d /\
     forall pk' a', articles st !! pk' = Some a' -> Article.slug a' = s ->
                    on_day (Article.pub_date a') y m d -> pk' = pk).
Proof.
  split; [|split].
  - rewrite detail_view_404, nil_no_elem. split.
    + intros Hnone. destruct (slug_used_dec st s) as [Hex|Hno]; [right|by left].
      split; [done|]. intros pk a Ha Hs Hday.
      apply (Hnone (pk, a)). by apply elem_of_filter_day_slug.
    + intros [Hno|[_ Hno]] [pk a] (Ha & Hs & Hday)%elem_of_filter_day_slug.
      * by apply (Hno pk a).
      * by apply (Hno pk a).
  - unfold article_detail_view.
    destruct (get_object_or_404 _) as [x|[]]; simpl; split; congruence.
  - intros pk a. rewrite detail_view_Ok.
    rewrite NoDup_singleton_iff
      by (apply NoDup_filter, NoDup_all_articles).
    rewrite elem_of_filter_day_slug. split.
    + intros [(Ha & Hs & Hday) Hall]. do 3 (split; [done|]).
      intros pk' a' Ha' Hs' Hday'.
      assert ((pk', a') = (pk, a)) as [= -> _]; [|done].
      apply Hall. by apply elem_of_filter_day_slug.
    + intros (Ha & Hs & Hday & Huniq). split; [done|].
      intros [pk' a'] (Ha' & Hs' & Hday')%elem_of_filter_day_slug.
      assert (pk' = pk) as -> by eauto. congruence.
Qed.

Lemma news_detail_lookup_witness :
  article_detail_view Fixture.store 2024 1 15 "test-article"
  = Ok (item_response (1, Fixture.article)) /\
  article_detail_view Fixture.store 2020 1 1 "test-article" = Raise Http404 /\
  article_detail_view Fixture.store 2024 1 15 "nonexistent-article" = Raise Http404.
Proof.
  split; [|split].
  - destruct (news_detail_lookup Fixture.store 2024 1 15 "test-article")
      as (_ & _ & H). apply H.
    split; [reflexivity|]. split; [reflexivity|]. split; [by repeat split|].
    intros pk' a' Ha' _ _. unfold Fixture.store in Ha'. cbn [articles] in Ha'.
    by apply lookup_singleton_Some in Ha' as [<- _].
  - destruct (news_detail_lookup Fixture.store 2020 1 1 "test-article")
      as (H & _ & _). apply H. right. split.
    + by exists 1, Fixture.article.
    + intros pk a Ha _ [Hy _]. unfold Fixture.store in Ha. cbn [articles] in Ha.
      apply lookup_singleton_Some in Ha as [_ <-]. discriminate Hy.
  - destruct (news_detail_lookup Fixture.store 2024 1 15 "nonexistent-article")
      as (H & _ & _). apply H. left.
    intros pk a Ha Hs. unfold Fixture.store in Ha. cbn [articles] in Ha.
    apply lookup_singleton_Some in Ha as [_ <-]. discriminate Hs.
Defined.

Lemma category_slug_of_key st k c a :
  unique_slugs st -> categories st !! k = Some c ->
  category_slug st a = Some (Category.slug c) <-> Article.category a = Some k.
Proof.
  intros Huniq Hk. unfold category_slug. split.
  - destruct (Article.category a) as [k'|]; [|done].
    destruct (categories st !! k') as [c'|] eqn:Hk'; [|done].
    intros [= E]. f_equal. by apply (Huniq k' k c' c).
  - intros ->. by rewrite Hk.
Qed.

Lemma length_articles_of st k : length (articles_of st k) = count_articles_of st k.
Proof.
  unfold articles_of, count_articles_of, all_articles.
  rewrite map_filter_alt, map_size_list_to_map; [done|].
  apply (sublist_NoDup _ ((map_to_list (articles st)).*1)).
  - apply NoDup_fst_map_to_list.
  - apply fmap_sublist, sublist_filter.
Qed.

(** C3: for a stored category [c] with key [k], the category listing for
    [c]'s slug holds each article that refers to [k] once, holds no
    article that refers to another category or to none, and so has as
    many entries as there are articles of [c]. *)
Theorem category_list_isolation (st : Store) (k : Z) (c : Category.t) :
  unique_slugs st -> categories st !! k = Some c ->
  exists items,
    article_category_list_view st (Category.slug c) = Ok (items_response items) /\
    NoDup items /\
    (forall pk a, (pk, a) ∈ items <->
                  articles st !! pk = Some a /\ Article.category a = Some k) /\
    length items = count_articles_of st k.
Proof.
  intros Huniq Hk. exists (filter_category_slug st (Category.slug c)).
  split; [done|]. split; [apply NoDup_filter, NoDup_all_articles|].
  split.
  - intros pk a. rewrite elem_of_filter_category_slug.
    by rewrite (category_slug_of_key st k c a).
  - rewrite <- length_articles_of. unfold filter_category_slug, articles_of.
    f_equal. apply list_filter_iff. intros [pk a]. simpl.
    by apply category_slug_of_key.
Qed.

Lemma fixture_unique_slugs : unique_slugs Fixture.store2.
Proof.
  intros k1 k2 c1 c2 H1 H2 E. unfold Fixture.store2 in *. cbn [categories] in *.
  apply lookup_insert_Some in H1 as [[<- <-]|[_ [<- <-]%lookup_singleton_Some]];
  apply lookup_insert_Some in H2 as [[<- <-]|[_ [<- <-]%lookup_singleton_Some]];
    done.
Defined.

Lemma category_list_isolation_witness :
  exists items,
    article_category_list_view Fixture.store2 "test-category"
    = Ok (items_response items) /\
    NoDup items /\
    (forall pk a, (pk, a) ∈ items <->
                  articles Fixture.store2 !! pk = Some a /\
                  Article.category a = Some 1) /\
    length items = count_articles_of Fixture.store2 1.
Proof.
  apply (category_list_isolation Fixture.store2 1 Fixture.category).
  - exact fixture_unique_slugs.
  - reflexivity.
Defined.

Lemma filter_category_slug_nil st s :
  ~ category_exists st s \/ category_unused st s ->
  filter_category_slug st s = [].
Proof.
  intros H. apply nil_no_elem.
  intros [pk a] [Ha Hs]%elem_of_filter_category_slug.
  unfold category_slug in Hs.
  destruct (Article.category a) as [k|] eqn:Hk; [|done].
  destruct (categories st !! k) as [c|] eqn:Hc; [|done].
  injection Hs as Hs. destruct H as [Hno|Hun].
  - apply Hno. by exists k, c.
  - by apply (Hun k c pk a).
Qed.

(** C4: when no category has the slug, or the categories that have it
    are referred to by no article, the category listing succeeds with
    status 200 and an empty [items]; the listing never answers "not
    found", whatever the slug. *)
Theorem category_list_empty (st : Store) (s : string) :
  ~ category_exists st s \/ category_unused st s ->
  article_category_list_view st s = Ok (items_response []) /\
  http_status (article_category_list_view st s) = 200 /\
  (forall s', http_status (article_category_list_view st s') = 200 /\
              article_category_list_view st s' <> Raise Http404).
Proof.
  intros H. unfold article_category_list_view.
  rewrite (filter_category_slug_nil st s H). by repeat split.
Qed.

Lemma category_list_empty_witness :
  article_category_list_view Fixture.store "nonexistent-category"
  = Ok (items_response []) /\
  http_status (article_category_list_view Fixture.store "nonexistent-category") = 200.
Proof.
  destruct (category_list_empty Fixture.store "nonexistent-category") as (H1 & H2 & _).
  - left. intros (k & c & Hk & Hs). unfold Fixture.store in Hk. cbn [categories] in Hk.
    apply lookup_singleton_Some in Hk as [_ <-]. discriminate Hs.
  - exact (conj H1 H2).
Defined.

(** ** Requests end to end *)

Lemma client_get_category st s :
  is_slug_text s = true ->
  client_get st (category_path s) = article_category_list_view st s.
Proof.
  intros Hs. unfold client_get. rewrite resolve_category_path, Hs.
  unfold dispatch, category_kwargs. cbn [func match_kwargs].
  by rewrite lookup_singleton_eq.
Qed.

Lemma client_get_news st y m d s :
  is_int_text y = true -> is_int_text m = true -> is_int_text d = true ->
  is_slug_text s = true ->
  fits y = true -> fits m = true -> fits d = true ->
  client_get st (news_path y m d s)
  = article_detail_view st (int_of_digits (chars y)) (int_of_digits (chars m))
      (int_of_digits (chars d)) s.
Proof.
  intros Hy Hm Hd Hs Cy Cm Cd. unfold client_get.
  rewrite resolve_news_path, Hy, Hm, Hd, Hs, Cy, Cm, Cd. cbn [andb].
  unfold dispatch. cbn [func match_kwargs]. by unfold news_kwargs.
Qed.

(** ** The test suite of [tests_urls.py] on the model *)

Example test_home_url_resolves_home_view :
  func <$> resolve "/" = Some HomePageView.
Proof. reflexivity. Qed.

Example test_articles_list_url_resolves_article_list_view :
  func <$> resolve "/articles" = Some ArticleList.
Proof. reflexivity. Qed.

Example test_articles_category_list_url_resolves_category_list_view :
  func <$> resolve "/articles/category/test-category/" = Some ArticleCategoryList.
Proof. vm_compute. reflexivity. Qed.

Example test_news_detail_url_resolves_article_detail_view :
  resolve "/articles/2024/01/15/test-article/"
  = Some (ResolverMatch ArticleDetail "news-detail"
            (news_kwargs 2024 1 15 "test-article")).
Proof. vm_compute. reflexivity. Qed.

Example test_articles_list_with_articles :
  client_get Fixture.store "/articles"
  = Ok (items_response [(1, Fixture.article)]).
Proof. vm_compute. reflexivity. Qed.

Example test_articles_category_list_filters_by_category :
  client_get Fixture.store2 "/articles/category/test-category/"
  = Ok (items_response [(1, Fixture.article)]).
Proof. vm_compute. reflexivity. Qed.

Example test_articles_category_list_with_nonexistent_category :
  client_get Fixture.store "/articles/category/nonexistent-category/"
  = Ok (items_response []).
Proof. vm_compute. reflexivity. Qed.

Example test_news_detail_view_displays_article :
  client_get Fixture.store "/articles/2024/1/15/test-article/"
  = Ok (item_response (1, Fixture.article)).
Proof. vm_compute. reflexivity. Qed.

Example test_news_detail_with_nonexistent_article :
  client_get Fixture.store "/articles/2024/1/15/nonexistent-article/"
  = Raise Http404.
Proof. vm_compute. reflexivity. Qed.

Example test_news_detail_with_wrong_date :
  client_get Fixture.store "/articles/2020/1/1/test-article/" = Raise Http404.
Proof. vm_compute. reflexivity. Qed.

Example test_news_detail_reverse :
  reverse "news-detail" (news_kwargs 2024 1 15 "test-article")
  = Some "/articles/2024/1/15/test-article/".
Proof. vm_compute. reflexivity. Qed.

Example reverse_negative_year :
  reverse "news-detail" (news_kwargs (-1) 1 15 "x") = None.
Proof. vm_compute. reflexivity. Qed.

Example reverse_bad_slug :
  reverse "articles-category-list" (category_kwargs "a b") = None.
Proof. vm_compute. reflexivity. Qed.

Example quote_space : text (quote (chars "a b/c")) = "a%20b/c".
Proof. reflexivity. Qed.

(** * Further properties of the URL configuration *)

(** ** Round trips between [reverse] and [resolve] *)

Lemma lookup_news_kwargs y m d s :
  news_kwargs y m d s !! "year" = Some (VInt y) /\
  news_kwargs y m d s !! "month" = Some (VInt m) /\
  news_kwargs y m d s !! "day" = Some (VInt d) /\
  news_kwargs y m d s !! "slug" = Some (VStr s).
Proof. by repeat split. Qed.

Lemma to_url_int_run z t :
  to_url (VInt z) = Some t -> is_run int_class t = true ->
  representable z = true /\ t = chars (decimal z).
Proof.
  cbn [to_url]. destruct (str z) as [t'|] eqn:Hs; [|done].
  intros <-%(inj Some) Hr. pose proof (str_Some _ _ Hs) as ->.
  split; [|done]. by apply (str_digits z (decimal z)).
Qed.

Lemma reverse_news_inv y m d s url :
  reverse "news-detail" (news_kwargs y m d s) = Some url ->
  representable y = true /\ representable m = true /\ representable d = true /\
  is_slug_text s = true /\ url = news_path (decimal y) (decimal m) (decimal d) s.
Proof.
  intros Hr%reverse_sound.
  destruct (lookup_news_kwargs y m d s) as (Ly & Lm & Ld & Ls).
  inversion Hr as [| | |kw vy vm vd vs ty tm td ts Hd Hy Hm Hdd Hs Ty Tm Td Ts Ry Rm Rd Rs];
    subst.
  rewrite Ly in Hy. rewrite Lm in Hm. rewrite Ld in Hdd. rewrite Ls in Hs.
  apply (inj Some) in Hy as <-, Hm as <-, Hdd as <-, Hs as <-.
  apply to_url_int_run in Ty as [Py ->]; [|done].
  apply to_url_int_run in Tm as [Pm ->]; [|done].
  apply to_url_int_run in Td as [Pd ->]; [|done].
  cbn [to_url] in Ts. apply (inj Some) in Ts as <-.
  by rewrite !text_chars.
Qed.

Lemma reverse_category_inv s url :
  reverse "articles-category-list" (category_kwargs s) = Some url ->
  is_slug_text s = true /\ url = category_path s.
Proof.
  intros Hr%reverse_sound.
  inversion Hr as [| |kw v t Hd Hv Ht Hrun|]; subst.
  unfold category_kwargs in Hv. rewrite lookup_singleton_eq in Hv.
  apply (inj Some) in Hv as <-. cbn [to_url] in Ht.
  apply (inj Some) in Ht as <-. by rewrite text_chars.
Qed.

Lemma reverse_category_eq s :
  reverse "articles-category-list" (category_kwargs s)
  = if is_slug_text s then Some (category_path s) else None.
Proof.
  destruct (is_slug_text s) eqn:Hs; [by apply reverse_category|].
  destruct (reverse _ _) as [url|] eqn:E; [|done].
  apply reverse_category_inv in E as [E _]. congruence.
Qed.

Lemma reverse_news_eq y m d s :
  reverse "news-detail" (news_kwargs y m d s)
  = if representable y && representable m && representable d && is_slug_text s
    then Some (news_path (decimal y) (decimal m) (decimal d) s) else None.
Proof.
  destruct (_ && _) eqn:Hc.
  - apply andb_true_iff in Hc as [[[Hy Hm]%andb_true_iff Hd]%andb_true_iff Hs].
    by apply reverse_news.
  - destruct (reverse _ _) as [url|] eqn:E; [|done].
    apply reverse_news_inv in E as (Hy & Hm & Hd & Hs & _).
    by rewrite Hy, Hm, Hd, Hs in Hc.
Qed.

(** X4: with the keyword arguments of its route, [reverse] builds a URL
    exactly when the slug is made of slug characters and year, month and
    day are representable: not negative and of at most
    [int_max_str_digits] digits.  Otherwise no URL is built. *)
Theorem reverse_succeeds_iff_valid (y m d : Z) (s : string) :
  reverse "articles-category-list" (category_kwargs s)
  = (if is_slug_text s then Some (category_path s) else None) /\
  reverse "news-detail" (news_kwargs y m d s)
  = (if representable y && representable m && representable d && is_slug_text s
     then Some (news_path (decimal y) (decimal m) (decimal d) s) else None).
Proof. split; [apply reverse_category_eq | apply reverse_news_eq]. Qed.

Example reverse_negative_day :
  reverse "news-detail" (news_kwargs 2024 1 (-15) "test-article") = None.
Proof. apply (reverse_news_eq 2024 1 (-15) "test-article"). Qed.

Example reverse_too_long_year :
  reverse "news-detail" (news_kwargs (10 ^ 4300) 1 15 "test-article") = None.
Proof. apply (reverse_news_eq (10 ^ 4300) 1 15 "test-article"). Qed.

Lemma resolve_decimal y m d s :
  representable y = true -> representable m = true -> representable d = true ->
  is_slug_text s = true ->
  resolve (news_path (decimal y) (decimal m) (decimal d) s)
  = Some (ResolverMatch ArticleDetail "news-detail" (news_kwargs y m d s)).
Proof.
  intros Hy Hm Hd Hs. rewrite resolve_news_path.
  rewrite !decimal_fits by done. unfold is_int_text.
  rewrite !representable_run, Hs by done. cbn [andb].
  apply andb_true_iff in Hy as [Hy _], Hm as [Hm _], Hd as [Hd _].
  apply Z.leb_le in Hy, Hm, Hd. by rewrite !int_of_decimal.
Qed.

(** X1: for a slug of slug characters and a year, month and day from
    zero up that the interpreter writes in decimal, the URL built by
    [reverse] resolves to the view of that name with the very keyword
    arguments it was built from. *)
Theorem reverse_then_resolve (y m d : Z) (s : string) :
  0 <= y < 10 ^ int_max_str_digits ->
  0 <= m < 10 ^ int_max_str_digits ->
  0 <= d < 10 ^ int_max_str_digits ->
  is_slug_text s = true ->
  (exists url,
     reverse "articles-category-list" (category_kwargs s) = Some url /\
     resolve url = Some (ResolverMatch ArticleCategoryList
                           "articles-category-list" (category_kwargs s))) /\
  (exists url,
     reverse "news-detail" (news_kwargs y m d s) = Some url /\
     resolve url = Some (ResolverMatch ArticleDetail "news-detail"
                           (news_kwargs y m d s))).
Proof.
  intros [Hy Hy'] [Hm Hm'] [Hd Hd'] Hs.
  pose proof (representable_bounds y Hy Hy') as Py.
  pose proof (representable_bounds m Hm Hm') as Pm.
  pose proof (representable_bounds d Hd Hd') as Pd.
  split.
  - exists (category_path s). split; [by apply reverse_category|].
    by rewrite resolve_category_path, Hs.
  - exists (news_path (decimal y) (decimal m) (decimal d) s).
    split; [by apply reverse_news | by apply resolve_decimal].
Qed.

Lemma in_bounds z :
  (0 <=? z) && (z <? 10 ^ int_max_str_digits) = true ->
  0 <= z < 10 ^ int_max_str_digits.
Proof.
  intros [H0 H1]%andb_true_iff. split; [by apply Z.leb_le | by apply Z.ltb_lt].
Qed.

Lemma reverse_then_resolve_witness :
  (exists url,
     reverse "articles-category-list" (category_kwargs "test-category") = Some url /\
     resolve url = Some (ResolverMatch ArticleCategoryList
                           "articles-category-list" (category_kwargs "test-category"))) /\
  (exists url,
     reverse "news-detail" (news_kwargs 2024 1 15 "test-category") = Some url /\
     resolve url = Some (ResolverMatch ArticleDetail "news-detail"
                           (news_kwargs 2024 1 15 "test-category"))).
Proof.
  apply (reverse_then_resolve 2024 1 15 "test-category");
    [by apply in_bounds; vm_compute | by apply in_bounds; vm_compute
    | by apply in_bounds; vm_compute | reflexivity].
Defined.

Lemma to_url_within_cap v t :
  to_url v = Some t -> is_run int_class t = true ->
  (forall s, v = VStr s -> fits s = true) -> within_cap t = true.
Proof.
  intros Ht Hr Hv. destruct v as [z|s].
  - apply to_url_int_run in Ht as [Hz ->]; [|done]. by apply decimal_fits.
  - cbn [to_url] in Ht. apply (inj Some) in Ht as <-. by apply (Hv s).
Qed.

(** X3: a URL that [reverse] builds for a name resolves to the route of
    that name with the same keyword names, provided that no text given as
    a keyword value is longer than [int_max_str_digits] characters: on
    the way back [int] refuses a longer run of digits. *)
Theorem reverse_resolves (n : string) (kw : kwargs) (url : string) :
  reverse n kw = Some url ->
  (forall k s, kw !! k = Some (VStr s) -> fits s = true) ->
  exists rm, resolve url = Some rm /\ url_name rm = n /\
             dom (match_kwargs rm) = dom kw.
Proof.
  intros Hr%reverse_sound Hshort.
  destruct Hr as [kw Hd|kw Hd|kw v t Hd Hv Ht Hr
                 |kw vy vm vd vs ty tm td ts Hd Hy Hm Hdd Hs Ty Tm Td Ts Ry Rm Rd Rs].
  - exists (ResolverMatch HomePageView "home" ∅).
    split; [reflexivity|]. split; [done|]. cbn [match_kwargs].
    by rewrite Hd, dom_empty_L.
  - exists (ResolverMatch ArticleList "articles-list" ∅).
    split; [reflexivity|]. split; [done|]. cbn [match_kwargs].
    by rewrite Hd, dom_empty_L.
  - eexists. split.
    + rewrite resolve_category_path. unfold is_slug_text. by rewrite chars_text, Hr.
    + split; [done|]. cbn [match_kwargs]. by rewrite Hd, dom_category_kwargs.
  - eexists. split.
    + rewrite resolve_news_path. unfold is_int_text, is_slug_text, fits.
      rewrite !chars_text, Ry, Rm, Rd, Rs.
      rewrite (to_url_within_cap vy ty), (to_url_within_cap vm tm),
        (to_url_within_cap vd td); try done.
      * intros s ->. by apply (Hshort "day").
      * intros s ->. by apply (Hshort "month").
      * intros s ->. by apply (Hshort "year").
    + split; [done|]. cbn [match_kwargs]. by rewrite Hd, dom_news_kwargs.
Qed.

Lemma reverse_resolves_witness :
  exists rm, resolve "/articles/007/1/15/x/" = Some rm /\
             url_name rm = "news-detail" /\
             dom (match_kwargs rm)
             = dom (<["year" := VStr "007"]> (news_kwargs 0 1 15 "x")).
Proof.
  apply (reverse_resolves "news-detail"
           (<["year" := VStr "007"]> (news_kwargs 0 1 15 "x"))).
  - vm_compute. reflexivity.
  - intros k s Hk. unfold news_kwargs in Hk.
    rewrite insert_insert_eq in Hk.
    repeat (apply lookup_insert_Some in Hk as [[_ Hk]|[_ Hk]];
            [by simplify_eq|]).
    apply lookup_singleton_Some in Hk as [_ Hk]. by simplify_eq.
Defined.

(** X8: a reversed URL is made of letters, digits, hyphens, underscores
    and slashes only: nothing in it is ever percent-escaped. *)
Theorem reverse_plain_characters (n : string) (kw : kwargs) (url : string) :
  reverse n kw = Some url -> forallb url_char (chars url) = true.
Proof.
  assert (forall l, forallb slug_class l = true -> forallb url_char l = true) as Hs.
  { intros l. apply forallb_impl. intros c Hc. unfold url_char. by rewrite Hc. }
  assert (forall l, forallb int_class l = true -> forallb url_char l = true) as Hi.
  { intros l. apply forallb_impl. intros c Hc. unfold url_char, slug_class.
    unfold int_class in Hc. by rewrite Hc, !orb_true_r. }
  intros Hr%reverse_sound.
  destruct Hr as [kw Hd|kw Hd|kw v t Hd Hv Ht Hr
                 |kw vy vm vd vs ty tm td ts Hd Hy Hm Hdd Hs' Ty Tm Td Ts Ry Rm Rd Rs].
  - reflexivity.
  - reflexivity.
  - rewrite chars_category_path, chars_text. unfold category_chars.
    cbn [forallb]. rewrite !forallb_app.
    by rewrite (Hs _ (is_run_forallb _ _ Hr)).
  - rewrite chars_news_path, !chars_text. unfold news_chars.
    cbn [forallb]. repeat (rewrite ?forallb_app; cbn [forallb]).
    rewrite (Hi _ (is_run_forallb _ _ Ry)), (Hi _ (is_run_forallb _ _ Rm)).
    by rewrite (Hi _ (is_run_forallb _ _ Rd)), (Hs _ (is_run_forallb _ _ Rs)).
Qed.

Lemma reverse_plain_characters_witness :
  forallb url_char (chars "/articles/2024/1/15/test-article/") = true.
Proof.
  apply (reverse_plain_characters "news-detail" (news_kwargs 2024 1 15 "test-article")).
  vm_compute. reflexivity.
Defined.

(** X2: the match of any resolvable path can be reversed, and the URL so
    built resolves to the same match.  For every route but news-detail
    the URL is the path itself; for news-detail it is the path with year,
    month and day written again from their values, [str(int(segment))],
    so that a segment such as [01] becomes [1]. *)
Theorem resolve_then_reverse (p : string) (rm : resolver_match) :
  resolve p = Some rm ->
  exists url, reverse (url_name rm) (match_kwargs rm) = Some url /\
              resolve url = Some rm /\
              (func rm <> ArticleDetail -> url = p) /\
              (func rm = ArticleDetail ->
               exists y m d s,
                 p = news_path y m d s /\
                 url = news_path (canonical y) (canonical m) (canonical d) s).
Proof.
  intros Hr%resolve_sound.
  destruct Hr as [| |s Hs|y m d s Hy Hm Hd Hs Cy Cm Cd];
    cbn [url_name match_kwargs func].
  - exists "/". by repeat split.
  - exists "/articles". by repeat split.
  - exists (category_path s). rewrite reverse_category by done.
    split; [done|]. split; [by rewrite resolve_category_path, Hs|]. by split.
  - unfold is_int_text, fits in *.
    pose proof (int_of_digits_representable _ Hy Cy) as Py.
    pose proof (int_of_digits_representable _ Hm Cm) as Pm.
    pose proof (int_of_digits_representable _ Hd Cd) as Pd.
    exists (news_path (canonical y) (canonical m) (canonical d) s).
    unfold canonical. split; [by apply reverse_news|].
    split; [by apply resolve_decimal|]. split; [done|].
    intros _. by exists y, m, d, s.
Qed.

Lemma resolve_then_reverse_witness :
  exists url,
    reverse "news-detail" (news_kwargs 2024 1 15 "test-article") = Some url /\
    resolve url = Some (ResolverMatch ArticleDetail "news-detail"
                          (news_kwargs 2024 1 15 "test-article")) /\
    (ArticleDetail <> ArticleDetail -> url = "/articles/2024/01/15/test-article/") /\
    (ArticleDetail = ArticleDetail ->
     exists y m d s,
       "/articles/2024/01/15/test-article/" = news_path y m d s /\
       url = news_path (canonical y) (canonical m) (canonical d) s).
Proof.
  apply (resolve_then_reverse "/articles/2024/01/15/test-article/"
           (ResolverMatch ArticleDetail "news-detail"
              (news_kwargs 2024 1 15 "test-article"))).
  apply (resolve_complete _ _ (resolves_news "2024" "01" "15" "test-article"
           eq_refl eq_refl eq_refl eq_refl eq_refl eq_refl eq_refl)).
Defined.

Example canonical_drops_zero : canonical "01" = "1".
Proof. reflexivity. Qed.

Lemma format_02d_representable z :
  representable z = true ->
  exists t, format_02d z = Some t /\ is_int_text t = true /\ fits t = true /\
            int_of_digits (chars t) = z.
Proof.
  intros Hz. unfold format_02d. rewrite (str_representable z Hz).
  pose proof (representable_run z Hz) as Hr.
  pose proof (decimal_fits z Hz) as Hf.
  apply andb_true_iff in Hz as [H0 H1]. apply Z.leb_le in H0.
  pose proof (int_of_decimal z H0) as Hv.
  destruct (_ && _) eqn:Hsmall; [|by eexists].
  eexists. split; [reflexivity|].
  change (chars ("0" +:+ decimal z)) with ("0"%char :: chars (decimal z)) in *.
  unfold is_int_text, fits.
  change (chars ("0" +:+ decimal z)) with ("0"%char :: chars (decimal z)).
  split; [by rewrite is_run_cons, (is_run_forallb _ _ Hr)|].
  split; [|done].
  apply andb_true_iff in Hsmall as [_ Hlt].
  pose proof (decimal_length_cap 1 ltac:(lia) z H0) as Hlen.
  change (10 ^ 1) with 10 in Hlen. rewrite Hlt in Hlen. apply Z.leb_le in Hlen.
  unfold within_cap, int_max_str_digits. apply Z.leb_le.
  cbn [length]. lia.
Qed.

(** X6: the path the tests write with a two-digit month and day,
    [/articles/{year}/{month:02d}/{day:02d}/{slug}/], resolves to
    news-detail with the numbers themselves, for every year, month and
    day from zero up that the interpreter writes in decimal: the zero it
    is filled with is dropped, so it reaches the same view and arguments
    as the path without filling. *)
Theorem zero_padded_path_resolves (y m d : Z) (s : string) :
  0 <= y < 10 ^ int_max_str_digits ->
  0 <= m < 10 ^ int_max_str_digits ->
  0 <= d < 10 ^ int_max_str_digits ->
  is_slug_text s = true ->
  exists ty tm td,
    str y = Some ty /\ format_02d m = Some tm /\ format_02d d = Some td /\
    resolve (news_path ty tm td s)
    = Some (ResolverMatch ArticleDetail "news-detail" (news_kwargs y m d s)) /\
    resolve (news_path ty tm td s)
    = resolve (news_path (decimal y) (decimal m) (decimal d) s).
Proof.
  intros [Hy Hy'] [Hm Hm'] [Hd Hd'] Hs.
  pose proof (representable_bounds y Hy Hy') as Py.
  pose proof (representable_bounds m Hm Hm') as Pm.
  pose proof (representable_bounds d Hd Hd') as Pd.
  destruct (format_02d_representable m Pm) as (tm & Fm & Rm & Cm & Vm).
  destruct (format_02d_representable d Pd) as (td & Fd & Rd & Cd & Vd).
  exists (decimal y), tm, td.
  split; [by apply str_representable|]. split; [done|]. split; [done|].
  rewrite (resolve_decimal y m d s) by done.
  rewrite resolve_news_path, Rm, Rd, Cm, Cd, Vm, Vd, Hs.
  rewrite (decimal_fits y Py). unfold is_int_text.
  rewrite (representable_run y Py), int_of_decimal by done. by split.
Qed.

Lemma zero_padded_path_resolves_witness :
  exists ty tm td,
    str 2024 = Some ty /\ format_02d 1 = Some tm /\ format_02d 5 = Some td /\
    resolve (news_path ty tm td "test-article")
    = Some (ResolverMatch ArticleDetail "news-detail"
              (news_kwargs 2024 1 5 "test-article")) /\
    resolve (news_path ty tm td "test-article")
    = resolve (news_path (decimal 2024) (decimal 1) (decimal 5) "test-article").
Proof.
  apply (zero_padded_path_resolves 2024 1 5 "test-article");
    [by apply in_bounds; vm_compute | by apply in_bounds; vm_compute
    | by apply in_bounds; vm_compute | reflexivity].
Defined.

Example format_02d_pads : format_02d 5 = Some "05" /\ format_02d 12 = Some "12".
Proof. by vm_compute. Qed.

(** X7: two news-detail URLs built by [reverse] are equal only when
    they were built from the same year, month, day and slug. *)
Theorem reverse_news_injective (y m d y' m' d' : Z) (s s' url : string) :
  reverse "news-detail" (news_kwargs y m d s) = Some url ->
  reverse "news-detail" (news_kwargs y' m' d' s') = Some url ->
  y = y' /\ m = m' /\ d = d' /\ s = s'.
Proof.
  intros (Py & Pm & Pd & Hs & ->)%reverse_news_inv
         (Py' & Pm' & Pd' & Hs' & E)%reverse_news_inv.
  apply (f_equal chars) in E. rewrite !chars_news_path in E.
  apply (inj (cons slash)) in E.
  apply news_chars_inj in E as (Ey & Em & Ed & Es).
  - apply andb_true_iff in Py as [Hy _], Pm as [Hm _], Pd as [Hd _].
    apply andb_true_iff in Py' as [Hy' _], Pm' as [Hm' _], Pd' as [Hd' _].
    apply Z.leb_le in Hy, Hm, Hd, Hy', Hm', Hd'.
    apply (f_equal int_of_digits) in Ey, Em, Ed.
    rewrite !int_of_decimal in Ey, Em, Ed by done.
    by apply chars_inj in Es.
  - apply (is_run_slash_free int_class); [done|]. by apply representable_run.
  - apply (is_run_slash_free int_class); [done|]. by apply representable_run.
  - apply (is_run_slash_free int_class); [done|]. by apply representable_run.
  - by apply (is_run_slash_free slug_class).
Qed.

Lemma reverse_news_injective_witness :
  2024 = 2024 /\ 1 = 1 /\ 15 = 15 /\ "test-article" = "test-article".
Proof.
  apply (reverse_news_injective 2024 1 15 2024 1 15 "test-article" "test-article"
           "/articles/2024/1/15/test-article/"); vm_compute; reflexivity.
Defined.

(** ** The routes do not overlap *)

Lemma match_pattern_shape u p m :
  u ∈ urlpatterns -> match_pattern u p = Some m ->
  (name u = "home" /\ p = []) \/
  (name u = "articles-list" /\ p = chars "articles") \/
  (name u = "articles-category-list" /\
   exists v, is_run slug_class v = true /\ p = category_chars v) \/
  (name u = "news-detail" /\
   exists y mo d s, is_run int_class y = true /\ p = news_chars y mo d s).
Proof.
  unfold urlpatterns. intros Hin.
  repeat (apply elem_of_cons in Hin as [->|Hin]); [..|by apply elem_of_nil in Hin];
    unfold match_pattern; cbn [route name].
  - rewrite parts_home. destruct (match_parts [] p) as [g|] eqn:Hm; [|done].
    apply match_parts_sound, matches_home in Hm as [-> _]. by left.
  - rewrite parts_list. destruct (match_parts _ p) as [g|] eqn:Hm; [|done].
    apply match_parts_sound, matches_list in Hm as [-> _]. right. by left.
  - rewrite parts_category. destruct (match_parts _ p) as [g|] eqn:Hm; [|done].
    apply match_parts_sound, matches_category in Hm as (v & Hv & -> & _).
    right. right. left. split; [done|]. by exists v.
  - rewrite parts_news. destruct (match_parts _ p) as [g|] eqn:Hm; [|done].
    apply match_parts_sound, matches_news in Hm
      as (y & mo & d & s & Hy & _ & _ & _ & -> & _).
    right. right. right. split; [done|]. by exists y, mo, d, s.
Qed.

Lemma names_unique u u' :
  u ∈ urlpatterns -> u' ∈ urlpatterns -> name u = name u' -> u = u'.
Proof.
  unfold urlpatterns. intros Hin Hin'.
  repeat (apply elem_of_cons in Hin as [->|Hin]); [..|by apply elem_of_nil in Hin];
  repeat (apply elem_of_cons in Hin' as [->|Hin']);
    try (by apply elem_of_nil in Hin'); cbn [name]; intros E;
    try reflexivity; discriminate E.
Qed.

Lemma patterns_disjoint u u' p m m' :
  u ∈ urlpatterns -> u' ∈ urlpatterns ->
  match_pattern u p = Some m -> match_pattern u' p = Some m' -> u = u'.
Proof.
  intros Hin Hin' Hm Hm'. apply names_unique; [done..|].
  destruct (match_pattern_shape u p m Hin Hm)
    as [[-> E]|[[-> E]|[[-> (v & Hv & E)]|[-> (y & mo & d & s & Hy & E)]]]];
  destruct (match_pattern_shape u' p m' Hin' Hm')
    as [[-> E']|[[-> E']|[[-> (v' & Hv' & E')]|[-> (y' & mo' & d' & s' & Hy' & E')]]]];
    try reflexivity; exfalso; subst p;
    try (by unfold category_chars, news_chars in E'; discriminate E').
  - by apply category_not_news in E'.
  - symmetry in E'. by apply category_not_news in E'.
Qed.

Lemma first_match_Some_elem us p m :
  first_match us p = Some m -> exists u, u ∈ us /\ match_pattern u p = Some m.
Proof.
  induction us as [|u us IH]; [done|]. cbn [first_match].
  destruct (match_pattern u p) as [m0|] eqn:Hu.
  - intros [= ->]. exists u. split; [left|done].
  - intros (u' & Hin & H)%IH. exists u'. split; [by right|done].
Qed.

Lemma first_match_None_all us p :
  first_match us p = None <-> forall u, u ∈ us -> match_pattern u p = None.
Proof.
  induction us as [|u us IH]; cbn [first_match].
  - split; [intros _ u Hu; by apply elem_of_nil in Hu | done].
  - destruct (match_pattern u p) as [m0|] eqn:Hu.
    + split; [done|]. intros H. rewrite (H u) in Hu; [done|left].
    + rewrite IH. split.
      * intros H u' [->|Hin]%elem_of_cons; auto.
      * intros H u' Hin. apply H. by right.
Qed.

Lemma first_match_unique us p u m :
  u ∈ us -> match_pattern u p = Some m ->
  (forall u' m', u' ∈ us -> match_pattern u' p = Some m' -> u' = u) ->
  first_match us p = Some m.
Proof.
  induction us as [|u0 us IH]; intros Hin Hm Huniq.
  - by apply elem_of_nil in Hin.
  - cbn [first_match]. destruct (match_pattern u0 p) as [m0|] eqn:H0.
    + assert (u0 = u) as -> by (apply (Huniq u0 m0); [left|done]). congruence.
    + apply elem_of_cons in Hin as [->|Hin]; [congruence|].
      apply IH; [done..|]. intros u' m' Hin'. apply Huniq. by right.
Qed.

(** X5: at most one route matches a path, so the order in which
    [urlpatterns] lists the four routes has no effect on resolution. *)
Theorem resolve_order_independent (us : list url_pattern) (p : string) :
  us ≡ₚ urlpatterns -> resolve_in us p = resolve p.
Proof.
  intros Hperm. unfold resolve, resolve_in.
  destruct (chars p) as [|c rest]; [done|]. destruct (bool_decide _); [|done].
  destruct (first_match urlpatterns rest) as [m|] eqn:E.
  - apply first_match_Some_elem in E as (u & Hin & Hm).
    apply (first_match_unique _ _ u); [by rewrite Hperm|done|].
    intros u' m' Hin' Hm'. rewrite Hperm in Hin'.
    by apply (patterns_disjoint u' u rest m' m).
  - apply first_match_None_all. intros u Hin. rewrite Hperm in Hin.
    by apply (proj1 (first_match_None_all _ _) E).
Qed.

Lemma resolve_order_independent_witness :
  resolve_in (rev urlpatterns) "/articles/category/test-category/"
  = resolve "/articles/category/test-category/".
Proof.
  apply (resolve_order_independent (rev urlpatterns)).
  symmetry. apply Permutation_rev.
Defined.

(** X12: a path resolves in exactly four cases: [/], [/articles],
    [/articles/category/<slug>/] with a slug of slug characters, and
    [/articles/<y>/<m>/<d>/<slug>/] with such a slug and three runs of
    digits, none longer than [int_max_str_digits]; the match names the
    view and carries the slug as text and the numbers as integers.
    Every other path is "not found". *)
Theorem resolve_exactly (p : string) (rm : resolver_match) :
  resolve p = Some rm <->
  (p = "/" /\ rm = ResolverMatch HomePageView "home" ∅) \/
  (p = "/articles" /\ rm = ResolverMatch ArticleList "articles-list" ∅) \/
  (exists s, is_slug_text s = true /\ p = category_path s /\
     rm = ResolverMatch ArticleCategoryList "articles-category-list"
            (category_kwargs s)) \/
  (exists y m d s,
     is_int_text y = true /\ is_int_text m = true /\ is_int_text d = true /\
     is_slug_text s = true /\
     fits y = true /\ fits m = true /\ fits d = true /\
     p = news_path y m d s /\
     rm = ResolverMatch ArticleDetail "news-detail"
            (news_kwargs (int_of_digits (chars y)) (int_of_digits (chars m))
                         (int_of_digits (chars d)) s)).
Proof.
  split.
  - intros Hr%resolve_sound.
    destruct Hr as [| |s Hs|y m d s Hy Hm Hd Hs Cy Cm Cd].
    + by left.
    + right. by left.
    + right. right. left. by exists s.
    + right. right. right. by exists y, m, d, s.
  - intros [[-> ->]|[[-> ->]|[(s & Hs & -> & ->)
             |(y & m & d & s & Hy & Hm & Hd & Hs & Cy & Cm & Cd & -> & ->)]]];
      apply resolve_complete; by constructor.
Qed.

Example resolve_unknown_path : resolve "/admin/" = None.
Proof. vm_compute. reflexivity. Qed.

(** A run of digits longer than the interpreter converts is not a year. *)
Example resolve_too_long_year :
  resolve (news_path (text (repeat "0"%char 4301)) "1" "1" "x") = None.
Proof. by rewrite resolve_news_path. Qed.

(** ** Admin layer: deleting images one after another *)

Lemma delete_file_Ok pk st st' :
  delete_file pk st = (Ok tt, st') ->
  is_Some (images st !! pk) /\
  st' = {| categories := categories st; articles := articles st;
           images := delete pk (images st) |}.
Proof.
  unfold delete_file, bind, get_image_or_404, delete_image.
  destruct (images st !! pk) as [img|] eqn:Hpk; [|done].
  cbn [fst]. intros [= <-]. split; [by eexists|done].
Qed.

Lemma delete_file_stored pk st img :
  images st !! pk = Some img ->
  delete_file pk st
  = (Ok tt, {| categories := categories st; articles := articles st;
               images := delete pk (images st) |}).
Proof.
  intros H. unfold delete_file, bind, get_image_or_404, delete_image.
  by rewrite H.
Qed.

(** X9: an image can be deleted once: after [delete_file pk] has
    succeeded, calling it again with the same key raises "not found" and
    changes nothing. *)
Theorem delete_file_twice (pk : Z) (st st' : Store) :
  delete_file pk st = (Ok tt, st') ->
  delete_file pk st' = (Raise Http404, st').
Proof.
  intros [_ ->]%delete_file_Ok.
  unfold delete_file, bind, get_image_or_404. cbn [images].
  by rewrite lookup_delete_eq.
Qed.

Lemma delete_file_twice_witness :
  delete_file 7 {| categories := {[1 := Fixture.category]};
                   articles := {[1 := Fixture.article]};
                   images := ∅ |}
  = (Raise Http404, {| categories := {[1 := Fixture.category]};
                       articles := {[1 := Fixture.article]};
                       images := ∅ |}).
Proof.
  apply (delete_file_twice 7 Fixture.store). vm_compute. reflexivity.
Defined.

(** X10: deleting two different stored images gives the same store in
    either order. *)
Theorem delete_file_commute (pk1 pk2 : Z) (st : Store) :
  pk1 <> pk2 -> is_Some (images st !! pk1) -> is_Some (images st !! pk2) ->
  (_ <- delete_file pk1 ;; delete_file pk2) st
  = (_ <- delete_file pk2 ;; delete_file pk1) st.
Proof.
  intros Hne [i1 H1] [i2 H2]. unfold bind.
  rewrite (delete_file_stored pk1 st i1), (delete_file_stored pk2 st i2) by done.
  rewrite (delete_file_stored pk2 _ i2), (delete_file_stored pk1 _ i1);
    cbn [images categories articles]; [|by rewrite lookup_delete_ne..].
  by rewrite delete_delete.
Qed.

Lemma delete_file_commute_witness :
  (_ <- delete_file 7 ;; delete_file 8)
    {| categories := ∅; articles := ∅;
       images := <[8 := Fixture.image]> {[7 := Fixture.image]} |}
  = (_ <- delete_file 8 ;; delete_file 7)
    {| categories := ∅; articles := ∅;
       images := <[8 := Fixture.image]> {[7 := Fixture.image]} |}.
Proof.
  apply (delete_file_commute 7 8); [lia | by eexists | by eexists].
Defined.

(** X11: a successful [delete_file] removes exactly one image: the
    number of stored images goes down by one. *)
Theorem delete_file_count (pk : Z) (st st' : Store) :
  delete_file pk st = (Ok tt, st') ->
  S (size (images st')) = size (images st).
Proof.
  intros [[img Hpk] ->]%delete_file_Ok. cbn [images].
  rewrite map_size_delete_Some by by eexists.
  assert (size (images st) <> 0%nat); [|lia].
  apply map_size_non_empty_iff. intros E. by rewrite E in Hpk.
Qed.

Lemma delete_file_count_witness :
  S (size (∅ : gmap Z ArticleImage.t)) = size (images Fixture.store).
Proof.
  apply (delete_file_count 7 Fixture.store
           {| categories := {[1 := Fixture.category]};
              articles := {[1 := Fixture.article]};
              images := ∅ |}).
  vm_compute. reflexivity.
Defined.
